(** * Hybrid envelopes, identifiers and signatures of [src/_base.ts]

    A shallow embedding of the functions of [_base.ts]: [verify],
    [encryptTo], [encryptTo.asString], the [AES] object, [encryptKeyTo],
    [importAesKey], [encryptBytes], [decryptBytes], [encrypt] and
    [getDeviceName].

    The functions are asynchronous: each one is a computation over a
    [World] (the state of the platform's random source, and the log of the
    calls made to the platform) that ends in a value or in a rejection.
    The platform ([webcrypto]), the [uint8arrays] package and the
    functions imported from [./util.js] are the fields of the class
    [Provider]; what the proofs need to know about them is stated as named
    contracts, and [Reference] builds a small executable provider that
    meets all of them. *)

From Stdlib Require Import List String Ascii Bool Arith NArith Lia.
From Stdlib Require Import Strings.Byte.
Import ListNotations.

Set Implicit Arguments.

(** ** Values *)

Definition bytes := list byte.

(** The failures of section 7 of the specification.  The code has no
    error classes of its own: it lets the failures of the platform and of
    [util.js] through. *)
Inductive error : Type :=
| UnsupportedAlgorithm
| UnsupportedKeyKind
| InvalidKeyLength
| MalformedIdentifier
| InvalidEncoding
| KeyUseMismatch
| UnsupportedPublicKeyFormat
| DecryptionFailed
| ProviderFailure (what : string).

Inductive result (A : Type) : Type :=
| Ok (a : A)
| Err (e : error).
Arguments Ok {A} a.
Arguments Err {A} e.

Definition is_ok {A} (r : result A) : bool :=
  match r with Ok _ => true | Err _ => false end.

(** What a call of a function that returns a promise can do: throw before
    it returns, or return a promise that later fulfils or rejects. *)
Inductive called (A : Type) : Type :=
| Threw (e : error)
| Promised (r : result A).
Arguments Threw {A} e.
Arguments Promised {A} r.

(** [Msg] of [types.js]: [ArrayBuffer | string | Uint8Array].  A
    [Uint8Array] and an [ArrayBuffer] are both a sequence of bytes. *)
Inductive Msg : Type :=
| MsgStr (s : string)
| MsgBuf (b : bytes).

(** [KeyUse] and [HashAlg] of [types.js]. *)
Inductive KeyUse : Type := Exchange | Sign.
Inductive HashAlg : Type := SHA_1 | SHA_256 | SHA_384 | SHA_512.

(** [SupportedEncodings] of [uint8arrays], as far as [_base.ts] names
    them. *)
Inductive Encoding : Type := base64pad | base32.

(** The value of the parameter [format] of [encrypt] and [encryptKeyTo]. *)
Inductive Format : Type := uint8array | arraybuffer.

(** A buffer as the caller receives it: the same bytes seen as a
    [Uint8Array] or as an [ArrayBuffer]. *)
Inductive Buffer : Type :=
| AsUint8Array (b : bytes)
| AsArrayBuffer (b : bytes).

Definition buffer_bytes (b : Buffer) : bytes :=
  match b with AsUint8Array x => x | AsArrayBuffer x => x end.

(** [SymmKey | Uint8Array | string]. *)
Inductive KeyArg (K : Type) : Type :=
| KeyHandle (k : K)
| KeyBytes (b : bytes)
| KeyStr (s : string).
Arguments KeyHandle {K} k.
Arguments KeyBytes {K} b.
Arguments KeyStr {K} s.

(** [CryptoKey | Uint8Array | ArrayBuffer]. *)
Inductive KeyOrBytes (K : Type) : Type :=
| HandleK (k : K)
| BytesK (b : bytes).
Arguments HandleK {K} k.
Arguments BytesK {K} b.

(** [CryptoKey | string]. *)
Inductive KeyOrStr (K : Type) : Type :=
| HandleS (k : K)
| StrS (s : string).
Arguments HandleS {K} k.
Arguments StrS {K} s.

(** [CryptoKey | Uint8Array | string], for a public key. *)
Inductive PubKeyArg (K : Type) : Type :=
| PubHandle (k : K)
| PubBytes (b : bytes)
| PubStr (s : string).
Arguments PubHandle {K} k.
Arguments PubBytes {K} b.
Arguments PubStr {K} s.

(** What [didToPublicKey] returns: [{ publicKey, type }]. *)
Record DidKey : Type := { publicKey : bytes; type : string }.

(** The options of [encryptBytes] and of [decryptBytes]. *)
Record EncryptOpts : Type :=
  { enc_iv : option bytes; enc_charsize : option N }.
Record DecryptOpts : Type :=
  { dec_alg : option string; dec_length : option N; dec_iv : option bytes }.

(** ** Constants of [./constants.js] and [./types.js] *)

(** Modelled from the spec: [IV_LENGTH] is declared in [constants.js],
    which is not part of the sources; the wire format of section 6 has a
    nonce of 12 bytes (96 bits). *)
Definition IV_LENGTH : nat := 12.

(** Modelled from the spec: [AES_GCM] is declared in [constants.js]; the
    symmetric algorithm of section 3 is the authenticated cipher with a
    96-bit nonce that the constant names. *)
Definition AES_GCM : string := "AES-GCM".

(** Modelled from the spec: [DEFAULT_SYMM_ALGORITHM] is declared in
    [constants.js]; section 3 knows one symmetric algorithm, the default
    of [AES.create]. *)
Definition DEFAULT_SYMM_ALGORITHM : string := AES_GCM.

(** Modelled from the spec: [DEFAULT_SYMM_LENGTH] is declared in
    [constants.js]; section 3 gives the default length of a symmetric
    key as 256 bits. *)
Definition DEFAULT_SYMM_LENGTH : N := 256.

(** Modelled from the spec: [SymmKeyLength.B256] is declared in
    [types.js]; the member is named after its value, the default of
    section 3. *)
Definition SymmKeyLength_B256 : N := 256.

(** ** The platform and [util.js] *)

Class Provider : Type := {
  (** an opaque key handle *)
  CryptoKey : Type;
  (** the state of the random source *)
  Entropy : Type;

  (** [webcrypto.subtle.generateKey({ name, length }, true,
      ['encrypt', 'decrypt'])] *)
  subtle_generateKey : string -> N -> Entropy -> result CryptoKey * Entropy;
  (** [webcrypto.subtle.exportKey('raw', key)] *)
  subtle_exportKey : CryptoKey -> result bytes;
  (** [webcrypto.subtle.importKey('raw', key, { name, length }, true,
      ['encrypt', 'decrypt'])] *)
  subtle_importKey : bytes -> string -> N -> result CryptoKey;
  (** [webcrypto.subtle.encrypt({ name, iv }, key, data)] *)
  subtle_encrypt : string -> bytes -> CryptoKey -> bytes -> result bytes;
  (** [webcrypto.subtle.decrypt({ name, iv }, key, data)] *)
  subtle_decrypt : string -> bytes -> CryptoKey -> bytes -> result bytes;

  (** [util.js] *)
  didToPublicKey : string -> result DidKey;
  importPublicKey : bytes -> HashAlg -> KeyUse -> result CryptoKey;
  rsaOperations_verify : Msg -> Msg -> CryptoKey -> called bool;
  rsaOperations_encrypt :
    Msg -> PubKeyArg CryptoKey -> Entropy -> result bytes * Entropy;
  importKey : string -> option EncryptOpts -> result CryptoKey;
  importKey_dec : string -> option DecryptOpts -> result CryptoKey;
  randomBuf : nat -> Entropy -> bytes * Entropy;
  base64ToArrBuf : string -> result bytes;
  sha256 : bytes -> bytes;
  (** the string cases of [normalizeUnicodeToBuf] and of
      [normalizeBase64ToBuf] *)
  unicodeToBuf : string -> N -> bytes;
  base64ToBuf : string -> result bytes;
  DEFAULT_CHAR_SIZE : N;

  (** [uint8arrays] and the built-ins of the language *)
  fromString : string -> bytes;
  toString : bytes -> Encoding -> string;
  normalize_NFD : string -> string;
  TextEncoder_encode : string -> bytes;

  (** the private-key operation [asymmetricDecrypt] of section 6, used by
      the opening of an envelope *)
  asymmetricDecrypt : bytes -> CryptoKey -> result bytes;
  (** the length in bytes of the modulus of a public key *)
  modulusBytes : PubKeyArg CryptoKey -> nat
}.

(** ** Asynchronous computations *)

(** A call made to the platform, as the log of the world records it. *)
Inductive Call (K : Type) : Type :=
| CallGenerateKey (alg : string) (len : N)
| CallExportKey (k : K)
| CallImportKey (raw : bytes) (alg : string) (len : N)
| CallEncrypt (alg : string) (iv : bytes) (k : K) (data : bytes)
| CallDecrypt (alg : string) (iv : bytes) (k : K) (data : bytes)
| CallRsaEncrypt (m : Msg) (pk : PubKeyArg K)
| CallRsaDecrypt (c : bytes) (k : K)
| CallRandomBuf (n : nat)
| CallDigest (data : bytes).
Arguments CallGenerateKey {K} alg len.
Arguments CallExportKey {K} k.
Arguments CallImportKey {K} raw alg len.
Arguments CallEncrypt {K} alg iv k data.
Arguments CallDecrypt {K} alg iv k data.
Arguments CallRsaEncrypt {K} m pk.
Arguments CallRsaDecrypt {K} c k.
Arguments CallRandomBuf {K} n.
Arguments CallDigest {K} data.

Definition is_generateKey {K} (c : Call K) : bool :=
  match c with CallGenerateKey _ _ => true | _ => false end.

Definition is_randomBuf {K} (c : Call K) : bool :=
  match c with CallRandomBuf _ => true | _ => false end.

Section Keys.

Context {P : Provider}.

Record World : Type := { entropy : Entropy; calls : list (Call CryptoKey) }.

(** An asynchronous computation: from a world to a fulfilment or a
    rejection, and the world after it. *)
Definition M (A : Type) : Type := World -> result A * World.

Definition ret {A} (a : A) : M A := fun w => (Ok a, w).

Definition throw {A} (e : error) : M A := fun w => (Err e, w).

Definition bind {A B} (m : M A) (f : A -> M B) : M B :=
  fun w =>
    match m w with
    | (Ok a, w') => f a w'
    | (Err e, w') => (Err e, w')
    end.

Definition logged (c : Call CryptoKey) (w : World) : World :=
  {| entropy := entropy w; calls := calls w ++ [c] |}.

(** A call whose outcome does not depend on the random source. *)
Definition call {A} (c : Call CryptoKey) (r : result A) : M A :=
  fun w => (r, logged c w).

(** A call that draws from the random source. *)
Definition draw {A} (c : Call CryptoKey)
    (f : Entropy -> result A * Entropy) : M A :=
  fun w =>
    let (r, s) := f (entropy w) in
    (r, {| entropy := s; calls := calls w ++ [c] |}).

(** A synchronous throw, or the rejection of an awaited promise that is
    not part of the log. *)
Definition lift {A} (r : result A) : M A := fun w => (r, w).

End Keys.

Declare Scope async_scope.
Delimit Scope async_scope with async.
Notation "x <- m ;; k" := (bind m (fun x => k))
  (at level 61, m at next level, right associativity) : async_scope.
Open Scope async_scope.

Section Source.

Context {P : Provider}.

(** *** Helpers of [util.js] whose behaviour the code relies on *)

(** Modelled from the spec: [joinBufs] is defined in [util.js]; section
    4.3 (step 4 of [sealTo]) and section 6 describe its result as the
    concatenation of its two arguments. *)
Definition joinBufs (a b : bytes) : bytes := a ++ b.

(** Modelled from the spec: [normalizeUnicodeToBuf] is defined in
    [util.js]; by section 4.3 (step 2 of [sealTo]) content is a byte
    sequence as it is, and a string is first brought to its byte
    encoding. *)
Definition normalizeUnicodeToBuf (msg : Msg) (charsize : N) : bytes :=
  match msg with
  | MsgBuf b => b
  | MsgStr s => unicodeToBuf s charsize
  end.

(** Modelled from the spec: [normalizeBase64ToBuf] is defined in
    [util.js]; a buffer is the envelope as it is (section 3), a string is
    its text form, base64 (section 6). *)
Definition normalizeBase64ToBuf (msg : Msg) : result bytes :=
  match msg with
  | MsgBuf b => Ok b
  | MsgStr s => base64ToBuf s
  end.

(** *** [verify] *)

(** [try { const isOk = rsaOperations.verify(msg, sig, key); return isOk }
    catch (_err) { return false }]: the promise is returned without being
    awaited, so the handler sees what the call throws and not the
    rejection of the promise. *)
Definition verify (msg sig : Msg) (signingDid : string) : M bool :=
  _key <- lift (didToPublicKey signingDid) ;;
  key <- lift (importPublicKey (publicKey _key) SHA_256 Sign) ;;
  match rsaOperations_verify msg sig key with
  | Threw _err => ret false
  | Promised isOk => lift isOk
  end.

(** *** [importAesKey], [encryptBytes], [decryptBytes], [encrypt] *)

(** [length || SymmKeyLength.B256] *)
Definition length_or_default (length : option N) : N :=
  match length with
  | None => SymmKeyLength_B256
  | Some 0%N => SymmKeyLength_B256
  | Some n => n
  end.

Definition importAesKey (key : bytes) (length : option N) : M CryptoKey :=
  let len := length_or_default length in
  call (CallImportKey key AES_GCM len) (subtle_importKey key AES_GCM len).

Definition encryptBytes (msg : Msg) (key : KeyOrStr CryptoKey)
    (opts : option EncryptOpts) : M bytes :=
  let data :=
    normalizeUnicodeToBuf msg
      (match opts with
       | Some o => match enc_charsize o with
                   | Some c => c
                   | None => DEFAULT_CHAR_SIZE
                   end
       | None => DEFAULT_CHAR_SIZE
       end) in
  importedKey <- match key with
                 | StrS s => lift (importKey s opts)
                 | HandleS k => ret k
                 end ;;
  iv <- match opts with
        | Some {| enc_iv := Some iv |} => ret iv
        | _ => draw (CallRandomBuf IV_LENGTH)
                 (fun s => let (b, s') := randomBuf IV_LENGTH s in (Ok b, s'))
        end ;;
  cipherBuf <- call (CallEncrypt AES_GCM iv importedKey data)
                 (subtle_encrypt AES_GCM iv importedKey data) ;;
  ret (joinBufs iv cipherBuf).

Definition decryptBytes (msg : Msg) (key : KeyOrStr CryptoKey)
    (opts : option DecryptOpts) : M bytes :=
  cipherText <- lift (normalizeBase64ToBuf msg) ;;
  importedKey <- match key with
                 | StrS s => lift (importKey_dec s opts)
                 | HandleS k => ret k
                 end ;;
  let iv := firstn IV_LENGTH cipherText in
  let cipherBytes := skipn IV_LENGTH cipherText in
  msgBuff <- call (CallDecrypt DEFAULT_SYMM_ALGORITHM iv importedKey cipherBytes)
               (subtle_decrypt DEFAULT_SYMM_ALGORITHM iv importedKey
                  cipherBytes) ;;
  ret msgBuff.

Definition as_format (format : option Format) (b : bytes) : Buffer :=
  match format with
  | Some arraybuffer => AsArrayBuffer b
  | _ => AsUint8Array b
  end.

(** [isCryptoKey(cryptoKey) ? cryptoKey : await importAesKey(cryptoKey)];
    [isCryptoKey] of [util.js] is the type guard [val is CryptoKey]. *)
Definition resolved (cryptoKey : KeyOrBytes CryptoKey) : M CryptoKey :=
  match cryptoKey with
  | HandleK k => ret k
  | BytesK b => importAesKey b None
  end.

Definition encrypt (data : bytes) (cryptoKey : KeyOrBytes CryptoKey)
    (format : option Format) (iv : option bytes) : M Buffer :=
  key <- resolved cryptoKey ;;
  encrypted <- match iv with
               | Some iv => call (CallEncrypt AES_GCM iv key data)
                              (subtle_encrypt AES_GCM iv key data)
               | None => encryptBytes (MsgBuf data) (HandleS key) None
               end ;;
  ret (as_format format encrypted).

(** *** The object [AES] *)

Definition AES_create (opts : option (string * N)) : M CryptoKey :=
  let (alg, length) :=
    match opts with
    | Some o => o
    | None => (DEFAULT_SYMM_ALGORITHM, DEFAULT_SYMM_LENGTH)
    end in
  draw (CallGenerateKey alg length) (subtle_generateKey alg length).

Definition AES_export (key : CryptoKey) : M bytes :=
  raw <- call (CallExportKey key) (subtle_exportKey key) ;;
  ret raw.

(** [typeof key === 'string' ? base64ToArrBuf(key) : key] *)
Definition key_material_of (key : Msg) : result bytes :=
  match key with
  | MsgStr s => base64ToArrBuf s
  | MsgBuf b => Ok b
  end.

Definition AES_import (key : Msg) : M CryptoKey :=
  raw <- lift (key_material_of key) ;;
  importAesKey raw None.

Definition AES_encrypt := encrypt.

(** [typeof encryptedData === 'string' ? fromString(encryptedData) :
    encryptedData] *)
Definition given_bytes (encryptedData : Msg) : bytes :=
  match encryptedData with
  | MsgStr s => fromString s
  | MsgBuf b => b
  end.

Definition AES_decrypt (encryptedData : Msg)
    (cryptoKey : KeyOrBytes CryptoKey) (iv : option bytes) : M bytes :=
  key <- resolved cryptoKey ;;
  decrypted <- match iv with
               | Some iv =>
                   let data := given_bytes encryptedData in
                   call (CallDecrypt AES_GCM iv key data)
                     (subtle_decrypt AES_GCM iv key data)
               | None => decryptBytes encryptedData (HandleS key) None
               end ;;
  ret decrypted.

(** *** [encryptKeyTo], [encryptTo], [encryptTo.asString] *)

(** [if (key instanceof CryptoKey) { _key = await AES.export(key) }
    else { _key = key }] *)
Definition exported_or_given (key : KeyArg CryptoKey) : M Msg :=
  match key with
  | KeyHandle k => raw <- AES_export k ;; ret (MsgBuf raw)
  | KeyBytes b => ret (MsgBuf b)
  | KeyStr s => ret (MsgStr s)
  end.

Definition encryptKeyTo (key : KeyArg CryptoKey)
    (publicKey : PubKeyArg CryptoKey) (format : option Format) : M Buffer :=
  _key <- exported_or_given key ;;
  buf <- draw (CallRsaEncrypt _key publicKey)
           (rsaOperations_encrypt _key publicKey) ;;
  ret (as_format format buf).

(** The truth value of [aesKey] in [aesKey || await AES.create()]: an
    absent argument and the empty string are false, every object is
    true. *)
Definition truthy (aesKey : option (KeyArg CryptoKey)) : bool :=
  match aesKey with
  | None => false
  | Some (KeyStr s) => negb (String.eqb s "")
  | Some _ => true
  end.

Definition key_or_create (aesKey : option (KeyArg CryptoKey))
    : M (KeyArg CryptoKey) :=
  match aesKey with
  | Some k => if truthy aesKey then ret k
              else (c <- AES_create None ;; ret (KeyHandle c))
  | None => c <- AES_create None ;; ret (KeyHandle c)
  end.

Definition content_bytes (content : Msg) : bytes :=
  match content with
  | MsgStr s => fromString s
  | MsgBuf b => b
  end.

(** [typeof key === 'string' ? await AES.import(key) : key] *)
Definition import_if_string (key : KeyArg CryptoKey)
    : M (KeyOrBytes CryptoKey) :=
  match key with
  | KeyStr s => k <- AES_import (MsgStr s) ;; ret (HandleK k)
  | KeyHandle k => ret (HandleK k)
  | KeyBytes b => ret (BytesK b)
  end.

Definition encryptTo (content : Msg) (publicKey : PubKeyArg CryptoKey)
    (aesKey : option (KeyArg CryptoKey)) : M bytes :=
  key <- key_or_create aesKey ;;
  k <- import_if_string key ;;
  encryptedContent <- AES_encrypt (content_bytes content) k None None ;;
  encryptedKey <- encryptKeyTo key publicKey None ;;
  ret (joinBufs (buffer_bytes encryptedKey) (buffer_bytes encryptedContent)).

Definition encryptTo_asString (content : Msg)
    (publicKey : PubKeyArg CryptoKey) (aesKey : option (KeyArg CryptoKey))
    : M string :=
  key <- key_or_create aesKey ;;
  k <- import_if_string key ;;
  encryptedContent <-
    AES_encrypt (content_bytes content) k (Some arraybuffer) None ;;
  encryptedKey <- encryptKeyTo key publicKey None ;;
  let joined :=
    joinBufs (buffer_bytes encryptedKey) (buffer_bytes encryptedContent) in
  ret (toString joined base64pad).

(** *** [getDeviceName] *)

Definition getDeviceName (did : string) : M string :=
  let input := TextEncoder_encode (normalize_NFD did) in
  hashedUsername <- call (CallDigest input) (Ok (sha256 input)) ;;
  ret (substring 0 32 (toString hashedUsername base32)).

(** *** Opening an envelope *)

(** Modelled from the spec: [AsymmetricKeyPair] of section 3; the class
    [Keys] that holds the pair has no body in the sources. *)
Record KeyPair : Type := {
  kp_publicKey : CryptoKey;
  kp_privateKey : CryptoKey;
  kp_size : nat;
  kp_usage : KeyUse
}.

(** Modelled from the spec: [openFrom] (the method of the class [Keys],
    whose body is not part of the sources) as section 4.3 gives it: split
    the buffer at the length of the wrapped key, a length fixed by the
    size of the key pair (section 6: the size in bytes); recover the raw
    symmetric key with the private key and import it; decrypt the
    remainder, nonce first, with [AES.decrypt]. *)
Definition openFrom (envelope : bytes) (recipientKeyPair : KeyPair)
    : M bytes :=
  let n := kp_size recipientKeyPair / 8 in
  let wrappedKey := firstn n envelope in
  let remainder := skipn n envelope in
  raw <- call (CallRsaDecrypt wrappedKey (kp_privateKey recipientKeyPair))
           (asymmetricDecrypt wrappedKey (kp_privateKey recipientKeyPair)) ;;
  key <- AES_import (MsgBuf raw) ;;
  AES_decrypt (MsgBuf remainder) (HandleK key) None.

End Source.

(** ** The identifier codec *)

Module Identifier.

(** Modelled from the spec: the algorithms of section 3 (an exchange
    algorithm and a signing algorithm); their declaration is not part
    of the sources. *)
Inductive Algorithm : Type := RsaExchange | RsaSigning.

Definition Algorithm_eqb (a b : Algorithm) : bool :=
  match a, b with
  | RsaExchange, RsaExchange | RsaSigning, RsaSigning => true
  | _, _ => false
  end.

Definition KeyUse_eqb (a b : KeyUse) : bool :=
  match a, b with
  | Exchange, Exchange | Sign, Sign => true
  | _, _ => false
  end.

(** Modelled from the spec: one variant of the tag table of sections 4.2
    and 9 (the table is part of [util.js]): a supported combination, its
    tag and the length of its public keys. *)
Record Tag : Type := {
  tag_algorithm : Algorithm;
  tag_usage : KeyUse;
  tag_text : string;
  tag_length : nat
}.

(** [drop n s]: [s] without its first [n] characters. *)
Fixpoint drop (n : nat) (s : string) : string :=
  match n, s with
  | O, _ => s
  | S n', String _ s' => drop n' s'
  | S _, EmptyString => EmptyString
  end.

Section Codec.

Variable table : list Tag.
Variable base_encode : bytes -> string.
Variable base_decode : string -> option bytes.

Definition tag_for (algorithm : Algorithm) (usage : KeyUse) : option Tag :=
  find (fun t => Algorithm_eqb (tag_algorithm t) algorithm
                 && KeyUse_eqb (tag_usage t) usage) table.

(** Modelled from the spec: [encode] of section 4.2 (in the sources,
    [publicKeyToDid] of [util.js], which is not part of them):
    [identifier = textPrefix(algorithm, keyUse) ∥ base-encode(bytes)],
    [UnsupportedAlgorithm] when the combination has no tag. *)
Definition encode (publicKeyBytes : bytes) (algorithm : Algorithm)
    (usage : KeyUse) : result string :=
  match tag_for algorithm usage with
  | None => Err UnsupportedAlgorithm
  | Some t => Ok (tag_text t ++ base_encode publicKeyBytes)%string
  end.

(** Modelled from the spec: the longest known tag at the start of
    [identifier], the first step of [decode] in section 4.2. *)
Fixpoint longest_tag (identifier : string) (tags : list Tag) : option Tag :=
  match tags with
  | [] => None
  | t :: rest =>
      let r := longest_tag identifier rest in
      if prefix (tag_text t) identifier then
        match r with
        | Some t' =>
            if String.length (tag_text t) <? String.length (tag_text t')
            then Some t' else Some t
        | None => Some t
        end
      else r
  end.

(** Modelled from the spec: [decode] of section 4.2 (in the sources,
    [didToPublicKey] of [util.js]): match the longest known tag at the
    start, [MalformedIdentifier] when none matches, [InvalidEncoding]
    when the remainder does not decode to bytes of the length expected
    for the tag. *)
Definition decode (identifier : string)
    : result (bytes * Algorithm * KeyUse) :=
  match longest_tag identifier table with
  | None => Err MalformedIdentifier
  | Some t =>
      match base_decode (drop (String.length (tag_text t)) identifier) with
      | Some bs =>
          if List.length bs =? tag_length t
          then Ok (bs, tag_algorithm t, tag_usage t)
          else Err InvalidEncoding
      | None => Err InvalidEncoding
      end
  end.

(** A valid input of [encode]: a combination that has a tag, and bytes
    of the length of that tag. *)
Definition valid (publicKeyBytes : bytes) (algorithm : Algorithm)
    (usage : KeyUse) : Prop :=
  exists t, tag_for algorithm usage = Some t
            /\ List.length publicKeyBytes = tag_length t.

(** No tag of the table is a prefix of another (section 4.2). *)
Definition prefix_free : Prop :=
  forall t1 t2, In t1 table -> In t2 table ->
    prefix (tag_text t1) (tag_text t2) = true -> t1 = t2.

(** The base encoding can be undone. *)
Definition base_codec : Prop :=
  forall bs, base_decode (base_encode bs) = Some bs.

End Codec.

(** *** Base 16, a base encoding *)

Definition hex_digit (n : N) : ascii :=
  nth (N.to_nat n)
    ["0"; "1"; "2"; "3"; "4"; "5"; "6"; "7";
     "8"; "9"; "a"; "b"; "c"; "d"; "e"; "f"]%char "0"%char.

Definition hex_value (c : ascii) : option N :=
  let n := N_of_ascii c in
  if ((48 <=? n) && (n <=? 57))%N then Some (n - 48)%N
  else if ((97 <=? n) && (n <=? 102))%N then Some (n - 87)%N
  else None.

Fixpoint hex_encode (bs : bytes) : string :=
  match bs with
  | [] => EmptyString
  | b :: rest =>
      String (hex_digit (Byte.to_N b / 16))
        (String (hex_digit (Byte.to_N b mod 16)) (hex_encode rest))
  end.

Definition hex_byte (c1 c2 : ascii) : option byte :=
  match hex_value c1, hex_value c2 with
  | Some h, Some l => Byte.of_N (16 * h + l)
  | _, _ => None
  end.

Fixpoint hex_decode (s : string) : option bytes :=
  match s with
  | EmptyString => Some []
  | String c1 (String c2 rest) =>
      match hex_byte c1 c2, hex_decode rest with
      | Some b, Some bs => Some (b :: bs)
      | _, _ => None
      end
  | String _ EmptyString => None
  end.

(** A table with one tag for each of the two combinations of section 3,
    for keys of four bytes. *)
Definition example_table : list Tag :=
  [ {| tag_algorithm := RsaExchange; tag_usage := Exchange;
       tag_text := "key:x:"; tag_length := 4 |};
    {| tag_algorithm := RsaSigning; tag_usage := Sign;
       tag_text := "key:s:"; tag_length := 4 |} ].

End Identifier.

(** ** Tampering *)

(** [flip_byte_bit j b]: the byte [b] with its bit [j] (0 to 7) flipped. *)
Definition flip_byte_bit (j : nat) (b : byte) : byte :=
  match Byte.of_N (N.lxor (Byte.to_N b) (2 ^ N.of_nat j)) with
  | Some b' => b'
  | None => b
  end.

(** [flip_bit i l]: the buffer [l] with the bit [i mod 8] of its byte
    [i / 8] flipped. *)
Fixpoint flip_bit (i : nat) (l : bytes) : bytes :=
  match l with
  | [] => []
  | b :: rest =>
      if i <? 8 then flip_byte_bit i b :: rest
      else b :: flip_bit (i - 8) rest
  end.

(** ** What the code expects of the platform *)

Section Contracts.

Context {P : Provider}.

(** [randomBuf(n)] returns [n] bytes. *)
Definition random_length : Prop :=
  forall n s, List.length (fst (randomBuf n s)) = n.

(** The length of what [rsaOperations.encrypt] returns is the length of
    the modulus of the public key, whatever the message. *)
Definition wrap_length : Prop :=
  forall m pk s c s',
    rsaOperations_encrypt m pk s = (Ok c, s') ->
    List.length c = modulusBytes pk.

(** The symmetric cipher decrypts what it encrypted. *)
Definition symmetric_correct : Prop :=
  forall iv k data c,
    subtle_encrypt AES_GCM iv k data = Ok c ->
    subtle_decrypt AES_GCM iv k c = Ok data.

(** The symmetric cipher is authenticated: a ciphertext that a key and a
    nonce accept is rejected, under the same key and nonce, once one of
    its bits is flipped. *)
Definition symmetric_authentic : Prop :=
  forall iv k c i,
    is_ok (subtle_decrypt AES_GCM iv k c) = true ->
    i < 8 * List.length c ->
    subtle_decrypt AES_GCM iv k (flip_bit i c) = Err DecryptionFailed.

(** [generateKey] with the defaults succeeds, and the key it returns
    encrypts under a nonce of [IV_LENGTH] bytes, can be exported, and is
    the key that the import of its raw bytes gives back. *)
Definition generated_key_usable : Prop :=
  forall s,
    exists k s',
      subtle_generateKey DEFAULT_SYMM_ALGORITHM DEFAULT_SYMM_LENGTH s
        = (Ok k, s')
      /\ (forall iv data, List.length iv = IV_LENGTH ->
            is_ok (subtle_encrypt AES_GCM iv k data) = true)
      /\ exists raw,
           subtle_exportKey k = Ok raw
           /\ List.length raw = 32
           /\ subtle_importKey raw AES_GCM SymmKeyLength_B256 = Ok k.

(** A valid key pair for the exchange: its public key wraps every raw
    symmetric key in a block of the size of the pair, and its private
    key recovers the raw key from the block. *)
Definition valid_exchange_keypair (K : KeyPair) : Prop :=
  kp_usage K = Exchange
  /\ modulusBytes (PubHandle (kp_publicKey K)) = kp_size K / 8
  /\ forall raw s, List.length raw = 32 ->
       exists c s',
         rsaOperations_encrypt (MsgBuf raw) (PubHandle (kp_publicKey K)) s
           = (Ok c, s')
         /\ asymmetricDecrypt c (kp_privateKey K) = Ok raw.

(** The import of raw key material rejects every length that is not an
    accepted size of a symmetric key (128, 192 or 256 bits) with
    [InvalidKeyLength], and accepts the others. *)
Definition accepted_length (n : nat) : bool :=
  (n =? 16) || (n =? 24) || (n =? 32).

Definition import_checks_length : Prop :=
  forall raw alg len,
    if accepted_length (List.length raw)
    then is_ok (subtle_importKey raw alg len) = true
    else subtle_importKey raw alg len = Err InvalidKeyLength.

End Contracts.

(** ** Observations on a run *)

Section Observations.

Context {P : Provider}.

(** Between [w] and [w'] calls were made, and none of them generated a
    key. *)
Definition quiet (w w' : World) : Prop :=
  exists new,
    calls w' = calls w ++ new
    /\ forallb (fun c => negb (is_generateKey c)) new = true.

(** The handle under which a supplied key encrypts: the handle itself,
    or the one that the import of the bytes, or of the bytes that the
    string decodes to, returns. *)
Definition handle_of (key : KeyArg CryptoKey) (k : CryptoKey) : Prop :=
  match key with
  | KeyHandle h => k = h
  | KeyBytes b => subtle_importKey b AES_GCM SymmKeyLength_B256 = Ok k
  | KeyStr s =>
      exists raw, base64ToArrBuf s = Ok raw
                  /\ subtle_importKey raw AES_GCM SymmKeyLength_B256 = Ok k
  end.

(** The body of [encryptTo] after its first line, where the key is
    chosen. *)
Definition encryptTo_with (content : Msg) (publicKey : PubKeyArg CryptoKey)
    (key : KeyArg CryptoKey) : M bytes :=
  k <- import_if_string key ;;
  encryptedContent <- AES_encrypt (content_bytes content) k None None ;;
  encryptedKey <- encryptKeyTo key publicKey None ;;
  ret (joinBufs (buffer_bytes encryptedKey) (buffer_bytes encryptedContent)).

End Observations.

(** ** An executable provider

    A small provider on which the code runs inside Rocq.  Its ciphers
    protect nothing; they have the shape that the contracts above ask
    for (a ciphertext followed by a tag, a wrapped key of the size of
    the modulus), so that the contracts can be seen to hold together. *)

Module Reference.

Inductive KeyKind : Type := Secret | Public | Private.

Definition KeyKind_eqb (a b : KeyKind) : bool :=
  match a, b with
  | Secret, Secret | Public, Public | Private, Private => true
  | _, _ => false
  end.

Record Key : Type := {
  key_kind : KeyKind;
  key_alg : string;
  key_bits : N;
  key_material : bytes
}.

Definition byte_of_N (n : N) : byte :=
  match Byte.of_N (n mod 256) with Some b => b | None => x00 end.

(** The random source: a counter into a fixed sequence of bytes. *)
Definition entropy_byte (n : nat) : byte := byte_of_N (7 * N.of_nat n + 3).

Definition random_bytes (n s : nat) : bytes := map entropy_byte (seq s n).

Definition sumN (l : bytes) : N :=
  fold_right (fun b acc => (Byte.to_N b + acc)%N) 0%N l.

Definition checksum (l : bytes) : byte := byte_of_N (sumN l).

(** *** Text encodings *)

Definition string_bytes (s : string) : bytes := list_byte_of_string s.

Definition alphabet64 : string :=
  "ABCDEFGHIJKLMNOPQRSTUVWXYZabcdefghijklmnopqrstuvwxyz0123456789+/".

Definition alphabet32 : string := "abcdefghijklmnopqrstuvwxyz234567".

Definition digit (alphabet : string) (n : N) : ascii :=
  match String.get (N.to_nat n) alphabet with
  | Some c => c
  | None => "?"%char
  end.

Fixpoint index_of (c : ascii) (alphabet : string) : option N :=
  match alphabet with
  | EmptyString => None
  | String a rest =>
      if Ascii.eqb a c then Some 0%N
      else match index_of c rest with
           | Some n => Some (n + 1)%N
           | None => None
           end
  end.

Definition string_of_chars (l : list ascii) : string :=
  fold_right String EmptyString l.

Definition chars64 (n : N) : list ascii :=
  [ digit alphabet64 (n / 262144); digit alphabet64 ((n / 4096) mod 64);
    digit alphabet64 ((n / 64) mod 64); digit alphabet64 (n mod 64) ]%N.

Fixpoint base64pad_chars (bs : bytes) : list ascii :=
  match bs with
  | [] => []
  | [a] =>
      firstn 2 (chars64 (Byte.to_N a * 65536)) ++ ["="; "="]%char
  | [a; b] =>
      firstn 3 (chars64 (Byte.to_N a * 65536 + Byte.to_N b * 256))
        ++ ["="%char]
  | a :: b :: c :: rest =>
      chars64 (Byte.to_N a * 65536 + Byte.to_N b * 256 + Byte.to_N c)
        ++ base64pad_chars rest
  end.

Definition base64pad_encode (bs : bytes) : string :=
  string_of_chars (base64pad_chars bs).

Definition bytes3 (n : N) : bytes :=
  [ byte_of_N (n / 65536); byte_of_N (n / 256); byte_of_N n ].

Fixpoint base64pad_decode (s : string) : result bytes :=
  match s with
  | EmptyString => Ok []
  | String c1 (String c2 (String c3 (String c4 rest))) =>
      match index_of c1 alphabet64, index_of c2 alphabet64 with
      | Some v1, Some v2 =>
          let hi := (v1 * 262144 + v2 * 4096)%N in
          if Ascii.eqb c3 "=" then
            if Ascii.eqb c4 "=" then
              match rest with
              | EmptyString => Ok (firstn 1 (bytes3 hi))
              | _ => Err InvalidEncoding
              end
            else Err InvalidEncoding
          else
            match index_of c3 alphabet64 with
            | Some v3 =>
                if Ascii.eqb c4 "=" then
                  match rest with
                  | EmptyString => Ok (firstn 2 (bytes3 (hi + v3 * 64)))
                  | _ => Err InvalidEncoding
                  end
                else
                  match index_of c4 alphabet64, base64pad_decode rest with
                  | Some v4, Ok bs => Ok (bytes3 (hi + v3 * 64 + v4) ++ bs)
                  | Some _, Err e => Err e
                  | None, _ => Err InvalidEncoding
                  end
            | None => Err InvalidEncoding
            end
      | _, _ => Err InvalidEncoding
      end
  | _ => Err InvalidEncoding
  end.

Definition chars32 (n : N) : list ascii :=
  map (fun k => digit alphabet32 ((n / 2 ^ k) mod 32)%N)
    [35; 30; 25; 20; 15; 10; 5; 0]%N.

Definition group40 (a b c d e : byte) : N :=
  (Byte.to_N a * 4294967296 + Byte.to_N b * 16777216
   + Byte.to_N c * 65536 + Byte.to_N d * 256 + Byte.to_N e)%N.

(** Base 32 in lower case, without padding. *)
Fixpoint base32_chars (bs : bytes) : list ascii :=
  match bs with
  | [] => []
  | [a] => firstn 2 (chars32 (group40 a x00 x00 x00 x00))
  | [a; b] => firstn 4 (chars32 (group40 a b x00 x00 x00))
  | [a; b; c] => firstn 5 (chars32 (group40 a b c x00 x00))
  | [a; b; c; d] => firstn 7 (chars32 (group40 a b c d x00))
  | a :: b :: c :: d :: e :: rest =>
      chars32 (group40 a b c d e) ++ base32_chars rest
  end.

Definition base32_encode (bs : bytes) : string :=
  string_of_chars (base32_chars bs).

(** The characters of a string, two bytes each (little endian), for
    strings of characters below 256. *)
Definition utf16_bytes (s : string) : bytes :=
  flat_map (fun b => [b; x00]) (string_bytes s).

(** A digest of 32 bytes.  It stands in for SHA-256; no proof depends
    on which function it is. *)
Definition digest32 (data : bytes) : bytes :=
  map (fun i => checksum (byte_of_N (N.of_nat i) :: data)) (seq 0 32).

(** *** Keys and ciphers *)

Definition generateKey (alg : string) (len : N) (s : nat)
    : result Key * nat :=
  if ((len =? 128) || (len =? 192) || (len =? 256))%N then
    let n := N.to_nat (len / 8) in
    (Ok {| key_kind := Secret; key_alg := alg; key_bits := len;
           key_material := random_bytes n s |}, s + n)
  else (Err (ProviderFailure "OperationError"), s).

Definition exportKey (k : Key) : result bytes :=
  match key_kind k with
  | Secret => Ok (key_material k)
  | _ => Err UnsupportedKeyKind
  end.

(** As on the platform, the length of the key is the length of the
    data and the member [length] of the algorithm is not looked at. *)
Definition importRaw (raw : bytes) (alg : string) (len : N) : result Key :=
  if accepted_length (List.length raw) then
    Ok {| key_kind := Secret; key_alg := alg;
          key_bits := 8 * N.of_nat (List.length raw);
          key_material := raw |}
  else Err InvalidKeyLength.

Definition usable (alg : string) (k : Key) : bool :=
  KeyKind_eqb (key_kind k) Secret && String.eqb alg (key_alg k).

Definition tag_of (iv : bytes) (k : Key) (data : bytes) : byte :=
  checksum (key_material k ++ iv ++ data).

(** The ciphertext is the data followed by a tag of one byte over the
    key, the nonce and the data. *)
Definition seal (alg : string) (iv : bytes) (k : Key) (data : bytes)
    : result bytes :=
  if usable alg k then Ok (data ++ [tag_of iv k data])
  else Err (ProviderFailure "InvalidAccessError").

Definition unseal (alg : string) (iv : bytes) (k : Key) (c : bytes)
    : result bytes :=
  if usable alg k then
    match rev c with
    | [] => Err DecryptionFailed
    | t :: rdata =>
        let data := rev rdata in
        if Byte.eqb t (tag_of iv k data) then Ok data
        else Err DecryptionFailed
    end
  else Err (ProviderFailure "InvalidAccessError").

(** The wrapped key: the length of the message, the message, and random
    padding up to the length of the modulus. *)
Definition wrap (m : Msg) (pk : PubKeyArg Key) (s : nat)
    : result bytes * nat :=
  match pk with
  | PubHandle k =>
      let data := match m with
                  | MsgBuf b => b
                  | MsgStr str => utf16_bytes str
                  end in
      let n := N.to_nat (key_bits k / 8) in
      if KeyKind_eqb (key_kind k) Public
         && (List.length data + 1 <=? n)
         && (List.length data <? 256)
      then
        let pad := n - 1 - List.length data in
        (Ok (byte_of_N (N.of_nat (List.length data)) :: data
               ++ random_bytes pad s), s + pad)
      else (Err (ProviderFailure "OperationError"), s)
  | _ => (Err UnsupportedPublicKeyFormat, s)
  end.

Definition unwrap (c : bytes) (k : Key) : result bytes :=
  match key_kind k, c with
  | Private, len :: rest =>
      if List.length c =? N.to_nat (key_bits k / 8)
      then Ok (firstn (N.to_nat (Byte.to_N len)) rest)
      else Err DecryptionFailed
  | _, _ => Err DecryptionFailed
  end.

Definition modulus (pk : PubKeyArg Key) : nat :=
  match pk with
  | PubHandle k => N.to_nat (key_bits k / 8)
  | _ => 0
  end.

Definition msg_bytes (m : Msg) : bytes :=
  match m with
  | MsgBuf b => b
  | MsgStr s => utf16_bytes s
  end.

(** A signature is valid when it is the tag of the message under the
    key. *)
Definition verifySignature (msg sig : Msg) (k : Key) : called bool :=
  Promised
    (match sig with
     | MsgBuf [t] =>
         Ok (Byte.eqb t (checksum (key_material k ++ msg_bytes msg)))
     | _ => Ok false
     end).

Definition resolve (did : string) : result DidKey :=
  match Identifier.decode Identifier.example_table Identifier.hex_decode
          did with
  | Ok (bs, _, _) => Ok {| publicKey := bs; type := "rsa" |}
  | Err e => Err e
  end.

Definition importPublic (bs : bytes) (h : HashAlg) (use : KeyUse)
    : result Key :=
  Ok {| key_kind := Public;
        key_alg := match use with
                   | Exchange => "RSA-OAEP"
                   | Sign => "RSA-PSS"
                   end;
        key_bits := 8 * N.of_nat (List.length bs);
        key_material := bs |}.

Definition importText (s : string) : result Key :=
  match base64pad_decode s with
  | Ok raw => importRaw raw AES_GCM SymmKeyLength_B256
  | Err e => Err e
  end.

Definition toText (bs : bytes) (e : Encoding) : string :=
  match e with
  | base64pad => base64pad_encode bs
  | base32 => base32_encode bs
  end.

#[export] Instance provider : Provider := {|
  CryptoKey := Key;
  Entropy := nat;
  subtle_generateKey := generateKey;
  subtle_exportKey := exportKey;
  subtle_importKey := importRaw;
  subtle_encrypt := seal;
  subtle_decrypt := unseal;
  didToPublicKey := resolve;
  importPublicKey := importPublic;
  rsaOperations_verify := verifySignature;
  rsaOperations_encrypt := wrap;
  importKey := fun s _ => importText s;
  importKey_dec := fun s _ => importText s;
  randomBuf := fun n s => (random_bytes n s, s + n);
  base64ToArrBuf := base64pad_decode;
  sha256 := digest32;
  unicodeToBuf := fun s c => if (c =? 8)%N then string_bytes s
                             else utf16_bytes s;
  base64ToBuf := base64pad_decode;
  DEFAULT_CHAR_SIZE := 16;
  fromString := string_bytes;
  toString := toText;
  normalize_NFD := fun s => s;
  TextEncoder_encode := string_bytes;
  asymmetricDecrypt := unwrap;
  modulusBytes := modulus
|}.

(** The world in which the runs below start. *)
Definition world0 : World := {| entropy := 0; calls := [] |}.

(** A key pair of 512 bits for the exchange. *)
Definition exchangePair : KeyPair :=
  {| kp_publicKey := {| key_kind := Public; key_alg := "RSA-OAEP";
                        key_bits := 512; key_material := [x01] |};
     kp_privateKey := {| key_kind := Private; key_alg := "RSA-OAEP";
                         key_bits := 512; key_material := [x01] |};
     kp_size := 512;
     kp_usage := Exchange |}.

(** A run of [encryptTo]: the content ["hello"] sealed to the public key
    of [exchangePair], no key supplied. *)
Definition hello : Msg := MsgStr "hello".

Definition recipient : PubKeyArg Key :=
  PubHandle (kp_publicKey exchangePair).

Definition sealed_hello : bytes :=
  Eval vm_compute in
    match fst (encryptTo hello recipient None world0) with
    | Ok env => env
    | Err _ => []
    end.

Definition world_after_seal : World :=
  Eval vm_compute in snd (encryptTo hello recipient None world0).

(** A key of 128 bits, a nonce and a ciphertext under them. *)
Definition key128 : Key :=
  {| key_kind := Secret; key_alg := AES_GCM; key_bits := 128;
     key_material := random_bytes 16 0 |}.

Definition nonce12 : bytes := random_bytes 12 16.

Definition cipher_hello : bytes :=
  Eval vm_compute in
    match seal AES_GCM nonce12 key128 (string_bytes "hello") with
    | Ok c => c
    | Err _ => []
    end.

End Reference.

(** ** The rest of [_base.ts] *)

(** [KeyUsage] of the platform, as far as [makeRSAKeypair] names it. *)
Inductive KeyUsage : Type :=
| usage_encrypt | usage_decrypt | usage_sign | usage_verify.

(** The value passed as [use] to [makeRSAKeypair]: a member of the enum
    [KeyUse], or any other value. *)
Inductive UseArg : Type :=
| UseOf (u : KeyUse)
| UseOther.

(** The first argument of [webcrypto.subtle.generateKey] for a pair:
    [{ name, modulusLength, publicExponent, hash: { name } }]. *)
Record RsaKeyGenParams : Type := {
  rsa_name : string;
  rsa_modulusLength : N;
  rsa_publicExponent : bytes;
  rsa_hash : HashAlg
}.

(** What [makeRSAKeypair] and the string forms of the exports need
    beside [Provider]. *)
Class KeyPlatform {P : Provider} : Type := {
  (** [toBase64] of [util.js] *)
  toBase64 : bytes -> string;
  (** [RSA_ALGORITHM] and [RSA_SIGN_ALGORITHM] of [constants.js] *)
  RSA_ALGORITHM : string;
  RSA_SIGN_ALGORITHM : string;
  (** [webcrypto.subtle.generateKey(params, extractable, uses)] for a
      pair: the public and the private key *)
  subtle_generateKey_pair :
    RsaKeyGenParams -> bool -> list KeyUsage -> Entropy ->
    result (CryptoKey * CryptoKey) * Entropy
}.

Section MoreSource.

Context {P : Provider} {KP : KeyPlatform}.

(** [new Uint8Array([0x01, 0x00, 0x01])] *)
Definition publicExponent : bytes := [x01; x00; x01].

(** [use === KeyUse.Exchange ? RSA_ALGORITHM : RSA_SIGN_ALGORITHM] *)
Definition algorithm_for (use : KeyUse) : string :=
  match use with
  | Exchange => RSA_ALGORITHM
  | Sign => RSA_SIGN_ALGORITHM
  end.

(** [use === KeyUse.Exchange ? ['encrypt', 'decrypt'] :
    ['sign', 'verify']] *)
Definition usages_for (use : KeyUse) : list KeyUsage :=
  match use with
  | Exchange => [usage_encrypt; usage_decrypt]
  | Sign => [usage_sign; usage_verify]
  end.

(** [makeRSAKeypair]; the [Error] thrown for a value that is not a
    [KeyUse] is a [ProviderFailure] with its message. *)
Definition makeRSAKeypair (size : N) (hashAlg : HashAlg) (use : UseArg)
    : M (CryptoKey * CryptoKey) :=
  match use with
  | UseOther => throw (ProviderFailure "invalid key use")
  | UseOf u =>
      let alg := algorithm_for u in
      let uses := usages_for u in
      draw (CallGenerateKey alg size)
        (subtle_generateKey_pair
           {| rsa_name := alg; rsa_modulusLength := size;
              rsa_publicExponent := publicExponent; rsa_hash := hashAlg |}
           false uses)
  end.

(** [format ? toString(raw, format) : toBase64(raw)] *)
Definition text_of (format : option Encoding) (raw : bytes) : string :=
  match format with
  | Some f => toString raw f
  | None => toBase64 raw
  end.

(** [AES.export.asString] *)
Definition AES_export_asString (key : CryptoKey) (format : option Encoding)
    : M string :=
  raw <- AES_export key ;;
  ret (text_of format raw).

(** [AES.exportAsString] *)
Definition AES_exportAsString (key : CryptoKey) : M string :=
  raw <- AES_export key ;;
  ret (toBase64 raw).

(** [encryptKeyTo.asString] *)
Definition encryptKeyTo_asString (key : KeyArg CryptoKey)
    (publicKey : PubKeyArg CryptoKey) (format : option Encoding)
    : M string :=
  asArr <- encryptKeyTo key publicKey None ;;
  ret (text_of format (buffer_bytes asArr)).

(** What [encryptKeyTo] hands to [rsaOperations.encrypt] for a key: the
    raw bytes that the export of a handle returns, given bytes as they
    are, and a string as it is, not decoded. *)
Definition wrapped_message (key : KeyArg CryptoKey) (m : Msg) : Prop :=
  match key with
  | KeyHandle k => exists raw, subtle_exportKey k = Ok raw /\ m = MsgBuf raw
  | KeyBytes b => m = MsgBuf b
  | KeyStr s => m = MsgStr s
  end.

End MoreSource.

(** ** Reading a run against the specification *)

Section Readings.

Context {P : Provider}.

(** The bytes that a call of [AES.decrypt] with an iv is about: a
    buffer as it is, a string as its bytes ([fromString] of
    [uint8arrays], UTF-8). *)
Definition bytes_given (input : Msg) (c : bytes) : Prop :=
  match input with
  | MsgBuf b => c = b
  | MsgStr s => c = fromString s
  end.

(** The bytes that a call of [AES.decrypt] without iv is about: a buffer
    as it is, a string as the bytes that its base64 text decodes to. *)
Definition bytes_prefixed (input : Msg) (x : bytes) : Prop :=
  match input with
  | MsgBuf b => x = b
  | MsgStr s => base64ToBuf s = Ok x
  end.

(** The raw key material that an argument of [AES.import] stands for:
    the bytes themselves, or the bytes that the base64 string decodes
    to. *)
Definition import_material (key : Msg) (raw : bytes) : Prop :=
  match key with
  | MsgBuf b => raw = b
  | MsgStr s => base64ToArrBuf s = Ok raw
  end.

(** The key that [encryptTo] works with and the state [s] of the random
    source once it is chosen: the supplied key, the source untouched,
    or, when the argument is absent or the empty string, the key that
    [generateKey] returns for the defaults. *)
Definition key_chosen (aesKey : option (KeyArg CryptoKey)) (w : World)
    (key : KeyArg CryptoKey) (s : Entropy) : Prop :=
  (aesKey = Some key /\ key <> KeyStr "" /\ s = entropy w)
  \/ ((aesKey = None \/ aesKey = Some (KeyStr ""))
      /\ exists c,
           subtle_generateKey DEFAULT_SYMM_ALGORITHM DEFAULT_SYMM_LENGTH
             (entropy w) = (Ok c, s)
           /\ key = KeyHandle c).

(** A key that the platform imported from raw material holds that
    material, and encrypts under a nonce of [IV_LENGTH] bytes. *)
Definition imported_key_usable : Prop :=
  forall raw k,
    subtle_importKey raw AES_GCM SymmKeyLength_B256 = Ok k ->
    subtle_exportKey k = Ok raw
    /\ forall iv data, List.length iv = IV_LENGTH ->
         is_ok (subtle_encrypt AES_GCM iv k data) = true.

End Readings.

(** The executable provider, completed. *)
Module ReferenceKeys.

Import Reference.

Definition generatePair (p : RsaKeyGenParams) (extractable : bool)
    (uses : list KeyUsage) (s : nat) : result (Key * Key) * nat :=
  if (rsa_modulusLength p mod 8 =? 0)%N then
    (Ok ({| key_kind := Public; key_alg := rsa_name p;
            key_bits := rsa_modulusLength p;
            key_material := random_bytes 1 s |},
         {| key_kind := Private; key_alg := rsa_name p;
            key_bits := rsa_modulusLength p;
            key_material := random_bytes 1 s |}), s + 1)
  else (Err (ProviderFailure "OperationError"), s).

#[export] Instance keys : KeyPlatform := {|
  toBase64 := base64pad_encode;
  RSA_ALGORITHM := "RSA-OAEP";
  RSA_SIGN_ALGORITHM := "RSA-PSS";
  subtle_generateKey_pair := generatePair
|}.

(** The key that [AES.create] returns in [world0], and the world after
    it. *)
Definition key256 : Key :=
  {| key_kind := Secret; key_alg := AES_GCM; key_bits := 256;
     key_material := random_bytes 32 0 |}.

Definition world1 : World :=
  {| entropy := 32;
     calls := [CallGenerateKey DEFAULT_SYMM_ALGORITHM DEFAULT_SYMM_LENGTH] |}.

(** A public key that cannot be exported as a symmetric key. *)
Definition publicKeyOnly : Key := kp_publicKey exchangePair.

(** The key of the identifier ["key:s:01020304"] and the signature of
    ["hello"] under it. *)
Definition signerKey : Key :=
  {| key_kind := Public; key_alg := "RSA-PSS"; key_bits := 32;
     key_material := [x01; x02; x03; x04] |}.

Definition signature_hello : Msg :=
  MsgBuf [checksum ([x01; x02; x03; x04] ++ msg_bytes hello)].

(** A run of [encrypt] without iv under [key256]. *)
Definition encrypted_hello : Buffer :=
  Eval vm_compute in
    match fst (encrypt (string_bytes "hello") (HandleK key256) None None
                 world1) with
    | Ok b => b
    | Err _ => AsUint8Array []
    end.

Definition world_after_encrypt : World :=
  Eval vm_compute in
    snd (encrypt (string_bytes "hello") (HandleK key256) None None world1).

(** A run of [encryptTo] with raw key bytes supplied. *)
Definition raw32 : bytes := Eval vm_compute in random_bytes 32 0.

Definition sealed_with_raw : bytes :=
  Eval vm_compute in
    match fst (encryptTo hello recipient (Some (KeyBytes raw32)) world0) with
    | Ok env => env
    | Err _ => []
    end.

Definition world_after_sealed_with_raw : World :=
  Eval vm_compute in
    snd (encryptTo hello recipient (Some (KeyBytes raw32)) world0).

(** An iv of 16 bytes and a ciphertext of ["hello"] under it and
    [key128]. *)
Definition nonce16 : bytes := Eval vm_compute in random_bytes 16 16.

Definition cipher16 : bytes :=
  Eval vm_compute in
    match seal AES_GCM nonce16 key128 (string_bytes "hello") with
    | Ok c => c
    | Err _ => []
    end.

(** Key material of three bytes, too short for a key. *)
Definition raw3 : bytes := [x00; x00; x00].

End ReferenceKeys.

(** * Properties *)

(** ** Buffers *)

Lemma firstn_exact (A : Type) (a b : list A) n :
  List.length a = n -> firstn n (a ++ b) = a.
Proof.
  intros <-. rewrite firstn_app, Nat.sub_diag, firstn_all. simpl.
  apply app_nil_r.
Qed.

Lemma skipn_exact (A : Type) (a b : list A) n :
  List.length a = n -> skipn n (a ++ b) = b.
Proof.
  intros <-. rewrite skipn_app, Nat.sub_diag, skipn_all. reflexivity.
Qed.

Lemma split_at (A : Type) (x a b : list A) n :
  List.length a = n ->
  (firstn n x = a /\ skipn n x = b) <-> x = a ++ b.
Proof.
  intros Hn. split.
  - intros [<- <-]. symmetry. apply firstn_skipn.
  - intros ->. split; [apply firstn_exact | apply skipn_exact]; exact Hn.
Qed.

Lemma flip_bit_length i l : List.length (flip_bit i l) = List.length l.
Proof.
  revert i. induction l as [|b l IH]; intros i; simpl; [reflexivity|].
  destruct (i <? 8); simpl; [reflexivity|]. now rewrite IH.
Qed.

Lemma flip_bit_app_r a b i :
  flip_bit (8 * List.length a + i) (a ++ b) = a ++ flip_bit i b.
Proof.
  induction a as [|x a IH]; [reflexivity|].
  cbn [List.length app flip_bit].
  replace (8 * S (List.length a) + i <? 8) with false
    by (symmetry; apply Nat.ltb_ge; lia).
  replace (8 * S (List.length a) + i - 8) with (8 * List.length a + i)
    by lia.
  now rewrite IH.
Qed.

(** ** Running the code *)

Section Facts.

Context {P : Provider}.

Lemma bind_ok A B (m : M A) (f : A -> M B) w a w' :
  m w = (Ok a, w') -> bind m f w = f a w'.
Proof. intros H. unfold bind. now rewrite H. Qed.

Lemma bind_err A B (m : M A) (f : A -> M B) w e w' :
  m w = (Err e, w') -> bind m f w = (Err e, w').
Proof. intros H. unfold bind. now rewrite H. Qed.

Lemma bind_inv A B (m : M A) (f : A -> M B) w b w' :
  bind m f w = (Ok b, w') ->
  exists a w1, m w = (Ok a, w1) /\ f a w1 = (Ok b, w').
Proof.
  unfold bind. destruct (m w) as [[a|e] w1]; intros H.
  - now exists a, w1.
  - discriminate.
Qed.

Lemma AES_decrypt_given encryptedData cryptoKey iv :
  AES_decrypt encryptedData cryptoKey (Some iv) =
  (key <- resolved cryptoKey ;;
   decrypted <- call (CallDecrypt AES_GCM iv key (given_bytes encryptedData))
                  (subtle_decrypt AES_GCM iv key (given_bytes encryptedData)) ;;
   ret decrypted).
Proof. reflexivity. Qed.

Lemma AES_decrypt_omitted encryptedData cryptoKey w x :
  normalizeBase64ToBuf encryptedData = Ok x ->
  AES_decrypt encryptedData cryptoKey None w =
  (key <- resolved cryptoKey ;;
   decrypted <- call (CallDecrypt AES_GCM (firstn IV_LENGTH x) key
                        (skipn IV_LENGTH x))
                  (subtle_decrypt AES_GCM (firstn IV_LENGTH x) key
                     (skipn IV_LENGTH x)) ;;
   ret decrypted) w.
Proof.
  intros Hx. unfold AES_decrypt, decryptBytes, resolved, bind, lift.
  destruct cryptoKey as [k|b].
  - unfold ret, call. rewrite Hx.
    change DEFAULT_SYMM_ALGORITHM with AES_GCM.
    destruct (subtle_decrypt AES_GCM _ k _); reflexivity.
  - destruct (importAesKey b None w) as [[key|e] w1]; [|reflexivity].
    unfold ret, call. rewrite Hx.
    change DEFAULT_SYMM_ALGORITHM with AES_GCM.
    destruct (subtle_decrypt AES_GCM _ key _); reflexivity.
Qed.

End Facts.

(** ** Symmetric encryption and decryption *)

Section Symmetric.

Context {P : Provider}.

Lemma log_last_inv (l : list (Call CryptoKey)) a b :
  l ++ [a] = l ++ [b] -> a = b.
Proof. intros H. apply app_inv_head in H. now injection H. Qed.

(** C9.  With an iv given, [AES.decrypt] asks the platform to decrypt the
    whole input under that iv, whatever the length of the iv; with the
    iv omitted, it asks for the input after its first 12 bytes, under
    these 12 bytes.  For an iv of 12 bytes the two calls are the same,
    in what is asked of the platform and in outcome, exactly when the
    bytes of the second input are the iv followed by the bytes of the
    first. *)
Theorem AES_decrypt_iv_forms
    (encryptedData prefixed : Msg) (cryptoKey : KeyOrBytes CryptoKey)
    (iv c x : bytes) (key : CryptoKey) (w w1 : World) :
  resolved cryptoKey w = (Ok key, w1) ->
  bytes_given encryptedData c ->
  bytes_prefixed prefixed x ->
  AES_decrypt encryptedData cryptoKey (Some iv) w
    = (subtle_decrypt AES_GCM iv key c,
       logged (CallDecrypt AES_GCM iv key c) w1)
  /\ AES_decrypt prefixed cryptoKey None w
    = (subtle_decrypt AES_GCM (firstn 12 x) key (skipn 12 x),
       logged (CallDecrypt AES_GCM (firstn 12 x) key (skipn 12 x)) w1)
  /\ (List.length iv = 12 ->
      (AES_decrypt prefixed cryptoKey None w
         = AES_decrypt encryptedData cryptoKey (Some iv) w
       <-> x = iv ++ c)).
Proof.
  intros Hkey Hc Hx.
  assert (Hc' : given_bytes encryptedData = c).
  { destruct encryptedData; cbn in Hc |- *; now subst. }
  assert (Hx' : normalizeBase64ToBuf prefixed = Ok x).
  { destruct prefixed; cbn in Hx |- *; [exact Hx | now subst]. }
  assert (Hgiven : AES_decrypt encryptedData cryptoKey (Some iv) w
    = (subtle_decrypt AES_GCM iv key c,
       logged (CallDecrypt AES_GCM iv key c) w1)).
  { rewrite AES_decrypt_given. erewrite bind_ok by exact Hkey.
    rewrite Hc'. unfold bind, call, ret.
    destruct (subtle_decrypt AES_GCM iv key c); reflexivity. }
  assert (Homitted : AES_decrypt prefixed cryptoKey None w
    = (subtle_decrypt AES_GCM (firstn 12 x) key (skipn 12 x),
       logged (CallDecrypt AES_GCM (firstn 12 x) key (skipn 12 x)) w1)).
  { erewrite AES_decrypt_omitted by exact Hx'.
    erewrite bind_ok by exact Hkey.
    unfold bind, call, ret. change IV_LENGTH with 12.
    destruct (subtle_decrypt AES_GCM (firstn 12 x) key (skipn 12 x));
      reflexivity. }
  split; [exact Hgiven|]. split; [exact Homitted|].
  intros Hiv. rewrite Hgiven, Homitted. split.
  - intros H. apply (f_equal (fun r => calls (snd r))) in H.
    cbn in H. apply log_last_inv in H. rename H into Hlog.
    injection Hlog as Hf Hs.
    apply (split_at x iv c Hiv). now split.
  - intros Heq.
    apply (split_at x iv c Hiv) in Heq.
    destruct Heq as [Hf Hs]. now rewrite Hf, Hs.
Qed.

(** C10.  With an iv given, what [encrypt] returns does not depend on
    the world it runs in: it draws nothing from the random source (no
    [randomBuf] call is made, and the source is left as it was), so its
    output is a function of the data, the key, the format and the iv. *)
Theorem encrypt_fixed_iv_deterministic
    (data : bytes) (cryptoKey : KeyOrBytes CryptoKey)
    (format : option Format) (iv : bytes) (w1 w2 : World) :
  fst (encrypt data cryptoKey format (Some iv) w1)
    = fst (encrypt data cryptoKey format (Some iv) w2)
  /\ entropy (snd (encrypt data cryptoKey format (Some iv) w1)) = entropy w1
  /\ exists new,
       calls (snd (encrypt data cryptoKey format (Some iv) w1))
         = calls w1 ++ new
       /\ forallb (fun c => negb (is_randomBuf c)) new = true.
Proof.
  unfold encrypt, resolved, bind, ret, call, importAesKey, logged.
  destruct cryptoKey as [k|b]; simpl.
  - destruct (subtle_encrypt AES_GCM iv k data); simpl;
      (split; [reflexivity|]; split; [reflexivity|]);
      eexists; (split; [reflexivity|]); reflexivity.
  - destruct (subtle_importKey b AES_GCM _) as [k|e]; simpl.
    + destruct (subtle_encrypt AES_GCM iv k data); simpl;
        (split; [reflexivity|]; split; [reflexivity|]);
        eexists; (split; [rewrite <- app_assoc; reflexivity|]);
        reflexivity.
    + split; [reflexivity|]; split; [reflexivity|].
      eexists; (split; [reflexivity|]); reflexivity.
Qed.

(** ** The device name *)

Lemma substring_length_le n s : String.length (substring 0 n s) <= n.
Proof.
  revert s. induction n as [|n IH]; intros [|c s]; simpl; try lia.
  specialize (IH s). lia.
Qed.

(** C8.  [getDeviceName] returns the first 32 characters of the base 32
    encoding of the hash of the identifier in the form NFD: the same
    string in every world, of at most 32 characters. *)
Theorem getDeviceName_spec (did : string) (w : World) :
  fst (getDeviceName did w)
    = Ok (substring 0 32
            (toString (sha256 (TextEncoder_encode (normalize_NFD did)))
               base32))
  /\ forall name w', fst (getDeviceName did w') = Ok name ->
       String.length name <= 32
       /\ fst (getDeviceName did w) = Ok name.
Proof.
  split; [reflexivity|].
  intros name w' H. cbn in H. injection H as <-.
  split; [apply substring_length_le | reflexivity].
Qed.

End Symmetric.

(** ** Envelopes *)

Section Envelopes.

Context {P : Provider}.

Lemma quiet_refl w : quiet w w.
Proof. exists []. split; [now rewrite app_nil_r | reflexivity]. Qed.

Lemma quiet_trans w1 w2 w3 : quiet w1 w2 -> quiet w2 w3 -> quiet w1 w3.
Proof.
  intros [n1 [H1 Q1]] [n2 [H2 Q2]]. exists (n1 ++ n2). split.
  - now rewrite H2, H1, app_assoc.
  - now rewrite forallb_app, Q1, Q2.
Qed.

Lemma quiet_bind A B (m : M A) (f : A -> M B) w :
  quiet w (snd (m w)) ->
  (forall a w1, quiet w1 (snd (f a w1))) ->
  quiet w (snd (bind m f w)).
Proof.
  intros Hm Hf. unfold bind. destruct (m w) as [[a|e] w1]; simpl in *.
  - eapply quiet_trans; [exact Hm | apply Hf].
  - exact Hm.
Qed.

Lemma quiet_ret A (a : A) w : quiet w (snd (ret a w)).
Proof. apply quiet_refl. Qed.

Lemma quiet_lift A (r : result A) w : quiet w (snd (lift r w)).
Proof. apply quiet_refl. Qed.

Lemma quiet_call A c (r : result A) w :
  is_generateKey c = false -> quiet w (snd (call c r w)).
Proof.
  intros Hc. exists [c]. split; [reflexivity|]. simpl. now rewrite Hc.
Qed.

Lemma quiet_draw A c (f : Entropy -> result A * Entropy) w :
  is_generateKey c = false -> quiet w (snd (draw c f w)).
Proof.
  intros Hc. unfold draw. destruct (f (entropy w)) as [r s].
  exists [c]. split; [reflexivity|]. simpl. now rewrite Hc.
Qed.

Lemma quiet_importAesKey b len w : quiet w (snd (importAesKey b len w)).
Proof. now apply quiet_call. Qed.

Lemma quiet_AES_import key w : quiet w (snd (AES_import key w)).
Proof.
  apply quiet_bind; [apply quiet_lift|]. intros. apply quiet_importAesKey.
Qed.

Lemma quiet_import_if_string key w :
  quiet w (snd (import_if_string key w)).
Proof.
  destruct key; unfold import_if_string;
    [apply quiet_ret | apply quiet_ret |].
  apply quiet_bind; [apply quiet_AES_import|]. intros. apply quiet_ret.
Qed.

Lemma quiet_resolved kb w : quiet w (snd (resolved kb w)).
Proof.
  destruct kb; unfold resolved; [apply quiet_ret | apply quiet_importAesKey].
Qed.

Lemma quiet_encrypt data kb format iv w :
  quiet w (snd (encrypt data kb format iv w)).
Proof.
  apply quiet_bind; [apply quiet_resolved|]. intros k w1.
  apply quiet_bind; [|intros; apply quiet_ret].
  destruct iv as [iv|]; [now apply quiet_call|].
  apply quiet_bind; [apply quiet_ret|]. intros k' w2.
  apply quiet_bind; [now apply quiet_draw|]. intros nonce w3.
  apply quiet_bind; [now apply quiet_call|]. intros. apply quiet_ret.
Qed.

Lemma quiet_exported_or_given key w :
  quiet w (snd (exported_or_given key w)).
Proof.
  destruct key; unfold exported_or_given;
    [| apply quiet_ret | apply quiet_ret].
  apply quiet_bind; [|intros; apply quiet_ret].
  apply quiet_bind; [now apply quiet_call | intros; apply quiet_ret].
Qed.

Lemma quiet_encryptKeyTo key pk format w :
  quiet w (snd (encryptKeyTo key pk format w)).
Proof.
  apply quiet_bind; [apply quiet_exported_or_given|].
  intros m w1. apply quiet_bind; [now apply quiet_draw|].
    intros. apply quiet_ret.
Qed.

(** [encryptTo] chooses the key and goes on with it. *)
Lemma encryptTo_run content pk aesKey :
  encryptTo content pk aesKey =
  (key <- key_or_create aesKey ;; encryptTo_with content pk key).
Proof. reflexivity. Qed.

Lemma quiet_encryptTo_with content pk key w :
  quiet w (snd (encryptTo_with content pk key w)).
Proof.
  apply quiet_bind; [apply quiet_import_if_string|]. intros k w1.
  apply quiet_bind; [apply quiet_encrypt|]. intros c w2.
  apply quiet_bind; [apply quiet_encryptKeyTo|]. intros. apply quiet_ret.
Qed.

(** What a successful [encrypt] without iv did. *)
Lemma encrypt_fresh_inv data kb format w buf w' :
  encrypt data kb format None w = (Ok buf, w') ->
  exists k w1 nonce s cipher,
    resolved kb w = (Ok k, w1)
    /\ randomBuf IV_LENGTH (entropy w1) = (nonce, s)
    /\ subtle_encrypt AES_GCM nonce k data = Ok cipher
    /\ buffer_bytes buf = nonce ++ cipher
    /\ w' = {| entropy := s;
               calls := calls w1 ++ [CallRandomBuf IV_LENGTH;
                                     CallEncrypt AES_GCM nonce k data] |}.
Proof.
  unfold encrypt. intros H.
  apply bind_inv in H as (k & w1 & Hk & H).
  apply bind_inv in H as (enc & w2 & Henc & H).
  unfold ret in H. injection H as <- <-.
  unfold encryptBytes in Henc. cbn [normalizeUnicodeToBuf] in Henc.
  apply bind_inv in Henc as (k' & w3 & Hk' & Henc).
  unfold ret in Hk'. injection Hk' as <- <-.
  apply bind_inv in Henc as (nonce & w4 & Hnonce & Henc).
  apply bind_inv in Henc as (cipher & w5 & Hcipher & Henc).
  unfold ret in Henc. injection Henc as <- <-.
  unfold draw in Hnonce.
  destruct (randomBuf IV_LENGTH (entropy w1)) as [nonce' s] eqn:Hr.
  injection Hnonce as <- <-.
  unfold call in Hcipher. injection Hcipher as Hc <-.
  exists k, w1, nonce', s, cipher. repeat split; try assumption.
  - destruct format as [[|]|]; reflexivity.
  - unfold logged. cbn. now rewrite <- app_assoc.
Qed.

(** What a successful [encryptKeyTo] did. *)
Lemma encryptKeyTo_inv key pk format w buf w' :
  encryptKeyTo key pk format w = (Ok buf, w') ->
  exists m w1 s,
    exported_or_given key w = (Ok m, w1)
    /\ rsaOperations_encrypt m pk (entropy w1) = (Ok (buffer_bytes buf), s)
    /\ w' = {| entropy := s; calls := calls w1 ++ [CallRsaEncrypt m pk] |}.
Proof.
  unfold encryptKeyTo. intros H.
  apply bind_inv in H as (m & w1 & Hm & H).
  apply bind_inv in H as (c & w2 & Hc & H).
  unfold ret in H. injection H as <- <-.
  unfold draw in Hc.
  destruct (rsaOperations_encrypt m pk (entropy w1)) as [r s] eqn:Hr.
  injection Hc as -> <-.
  exists m, w1, s. repeat split; try assumption.
  rewrite Hr. f_equal. f_equal. destruct format as [[|]|]; reflexivity.
Qed.

End Envelopes.

Section Sealing.

Context {P : Provider}.

(** The result of [encrypt] in one format is its result in another,
    seen in that format. *)
Lemma encrypt_format data kb f1 f2 iv w :
  encrypt data kb f2 iv w =
  match encrypt data kb f1 iv w with
  | (Ok b, w') => (Ok (as_format f2 (buffer_bytes b)), w')
  | (Err e, w') => (Err e, w')
  end.
Proof.
  unfold encrypt, bind.
  destruct (resolved kb w) as [[k|e] w1]; [|reflexivity].
  destruct (match iv with
            | Some iv0 => call (CallEncrypt AES_GCM iv0 k data)
                            (subtle_encrypt AES_GCM iv0 k data)
            | None => encryptBytes (MsgBuf data) (HandleS k) None
            end w1) as [[x|e] w2]; [|reflexivity].
  unfold ret. destruct f1 as [[|]|]; reflexivity.
Qed.

(** What a successful run of [encryptTo] did once the key was chosen. *)
Lemma encryptTo_with_inv content pk key w env w' :
  encryptTo_with content pk key w = (Ok env, w') ->
  exists kb w1 k w2 nonce s cipher m w3 wrapped s',
    import_if_string key w = (Ok kb, w1)
    /\ resolved kb w1 = (Ok k, w2)
    /\ randomBuf IV_LENGTH (entropy w2) = (nonce, s)
    /\ subtle_encrypt AES_GCM nonce k (content_bytes content) = Ok cipher
    /\ exported_or_given key
         {| entropy := s;
            calls := calls w2
                     ++ [CallRandomBuf IV_LENGTH;
                         CallEncrypt AES_GCM nonce k
                           (content_bytes content)] |}
       = (Ok m, w3)
    /\ rsaOperations_encrypt m pk (entropy w3) = (Ok wrapped, s')
    /\ env = wrapped ++ nonce ++ cipher
    /\ w' = {| entropy := s'; calls := calls w3 ++ [CallRsaEncrypt m pk] |}.
Proof.
  unfold encryptTo_with, AES_encrypt. intros H.
  apply bind_inv in H as (kb & w1 & Hkb & H).
  apply bind_inv in H as (c & wc & Hc & H).
  apply bind_inv in H as (ek & wk & Hek & H).
  unfold ret in H. injection H as <- <-.
  apply encrypt_fresh_inv in Hc
    as (k & w2 & nonce & s & cipher & Hk & Hn & He & Hb & ->).
  apply encryptKeyTo_inv in Hek as (m & w3 & s' & Hm & Hw & ->).
  exists kb, w1, k, w2, nonce, s, cipher, m, w3, (buffer_bytes ek), s'.
  unfold joinBufs. rewrite Hb. repeat split; assumption.
Qed.

(** The handle under which the content was encrypted is the handle of
    the key that was chosen. *)
Lemma handle_of_resolved key kb k w w1 w2 :
  import_if_string key w = (Ok kb, w1) ->
  resolved kb w1 = (Ok k, w2) ->
  handle_of key k.
Proof.
  destruct key as [h|b|s]; unfold import_if_string; intros Hkb Hk.
  - unfold ret in Hkb. injection Hkb as <- <-.
    unfold resolved, ret in Hk. now injection Hk as <- <-.
  - unfold ret in Hkb. injection Hkb as <- <-.
    unfold resolved, importAesKey, call in Hk. injection Hk as Hk _.
    exact Hk.
  - apply bind_inv in Hkb as (k' & w3 & Hi & Hr).
    unfold ret in Hr. injection Hr as <- <-.
    unfold resolved, ret in Hk. injection Hk as <- <-.
    unfold AES_import in Hi. apply bind_inv in Hi as (raw & w4 & Hraw & Hi).
    unfold lift in Hraw. injection Hraw as Hraw <-.
    unfold importAesKey, call in Hi. injection Hi as Hi _.
    exists raw. split; assumption.
Qed.

Lemma truthy_supplied (key : KeyArg CryptoKey) :
  key <> KeyStr "" -> truthy (Some key) = true.
Proof.
  destruct key as [h|b|s]; try reflexivity. intros Hs. simpl.
  destruct (String.eqb_spec s ""); [subst; now elim Hs | reflexivity].
Qed.

Lemma key_or_create_supplied key w :
  key <> KeyStr "" -> key_or_create (Some key) w = (Ok key, w).
Proof.
  intros Hk. unfold key_or_create. now rewrite (truthy_supplied Hk).
Qed.

Lemma key_or_create_absent aesKey :
  truthy aesKey = false ->
  key_or_create aesKey = (c <- AES_create None ;; ret (KeyHandle c)).
Proof.
  unfold key_or_create. destruct aesKey as [k|]; [|reflexivity].
  now intros ->.
Qed.

Lemma exported_or_given_message key w m w1 :
  exported_or_given key w = (Ok m, w1) -> wrapped_message key m.
Proof.
  destruct key as [k|b|s]; unfold exported_or_given, wrapped_message.
  - unfold AES_export. intros H.
    apply bind_inv in H as (raw & w2 & Hraw & H).
    apply bind_inv in Hraw as (raw' & w3 & Hraw & Hr).
    unfold ret in H, Hr. injection H as <- _. injection Hr as <- _.
    unfold call in Hraw. injection Hraw as Hraw _. now exists raw'.
  - unfold ret. intros H. now injection H as <- _.
  - unfold ret. intros H. now injection H as <- _.
Qed.

(** Importing, resolving and exporting a key leave the random source as
    it is. *)
Lemma import_if_string_entropy key w :
  entropy (snd (import_if_string key w)) = entropy w.
Proof.
  destruct key as [k|b|s]; unfold import_if_string; try reflexivity.
  unfold AES_import, importAesKey, bind, lift, ret, call.
  destruct (key_material_of (MsgStr s)) as [raw|e]; [|reflexivity].
  destruct (subtle_importKey raw AES_GCM _); reflexivity.
Qed.

Lemma resolved_entropy kb w : entropy (snd (resolved kb w)) = entropy w.
Proof. destruct kb; reflexivity. Qed.

Lemma exported_or_given_entropy key w :
  entropy (snd (exported_or_given key w)) = entropy w.
Proof.
  destruct key as [k|b|s]; unfold exported_or_given; try reflexivity.
  unfold AES_export, bind, ret, call.
  destruct (subtle_exportKey k); reflexivity.
Qed.

(** The key that [encryptTo] goes on with. *)
Lemma key_or_create_chosen aesKey w key w0 :
  key_or_create aesKey w = (Ok key, w0) ->
  key_chosen aesKey w key (entropy w0).
Proof.
  assert (Hcreate : (c <- AES_create None ;; ret (KeyHandle c)) w
                    = (Ok key, w0) ->
                    exists c,
                      subtle_generateKey DEFAULT_SYMM_ALGORITHM
                        DEFAULT_SYMM_LENGTH (entropy w)
                        = (Ok c, entropy w0)
                      /\ key = KeyHandle c).
  { unfold AES_create, bind, draw, ret.
    destruct (subtle_generateKey DEFAULT_SYMM_ALGORITHM DEFAULT_SYMM_LENGTH
                (entropy w)) as [[c|e] s0]; [|discriminate].
    intros H. injection H as <- <-. now exists c. }
  unfold key_or_create. destruct aesKey as [[k|b|s]|].
  - unfold truthy, ret. intros H. injection H as <- <-.
    left. repeat split. discriminate.
  - unfold truthy, ret. intros H. injection H as <- <-.
    left. repeat split. discriminate.
  - unfold truthy. destruct (String.eqb_spec s "") as [->|Hs]; cbn [negb].
    + intros H. right. split; [now right | now apply Hcreate].
    + unfold ret. intros H. injection H as <- <-.
      left. repeat split. congruence.
  - intros H. right. split; [now left | now apply Hcreate].
Qed.



End Sealing.

Section Opening.

Context {P : Provider}.

(** Opening a buffer made of a wrapped key, a nonce and a ciphertext
    comes down to the symmetric decryption of the ciphertext under the
    nonce and the unwrapped key. *)
Lemma openFrom_parts K wrappedKey nonce c raw k w :
  List.length wrappedKey = kp_size K / 8 ->
  List.length nonce = IV_LENGTH ->
  asymmetricDecrypt wrappedKey (kp_privateKey K) = Ok raw ->
  subtle_importKey raw AES_GCM SymmKeyLength_B256 = Ok k ->
  fst (openFrom (wrappedKey ++ nonce ++ c) K w)
    = subtle_decrypt AES_GCM nonce k c.
Proof.
  intros Hw Hn Hraw Hk. unfold openFrom.
  rewrite (firstn_exact _ _ Hw), (skipn_exact _ _ Hw).
  unfold bind at 1. unfold call at 1. rewrite Hraw.
  unfold AES_import, key_material_of, lift, importAesKey.
  unfold bind at 1. unfold bind at 1. unfold call at 1.
  cbn [length_or_default]. rewrite Hk.
  erewrite AES_decrypt_omitted by reflexivity.
  unfold resolved, bind, ret, call.
  rewrite (firstn_exact _ _ Hn), (skipn_exact _ _ Hn).
  destruct (subtle_decrypt AES_GCM nonce k c); reflexivity.
Qed.

(** The envelope that [encryptTo] makes for a valid key pair when no key
    is supplied, and how its parts are related. *)
Lemma sealed_parts content K w env w' :
  random_length -> wrap_length -> generated_key_usable ->
  valid_exchange_keypair K ->
  encryptTo content (PubHandle (kp_publicKey K)) None w = (Ok env, w') ->
  exists wrappedKey nonce c raw k,
    env = wrappedKey ++ nonce ++ c
    /\ List.length wrappedKey = kp_size K / 8
    /\ List.length nonce = IV_LENGTH
    /\ subtle_encrypt AES_GCM nonce k (content_bytes content) = Ok c
    /\ asymmetricDecrypt wrappedKey (kp_privateKey K) = Ok raw
    /\ subtle_importKey raw AES_GCM SymmKeyLength_B256 = Ok k.
Proof.
  intros Hrandom Hwrap Hgen (_ & Hmod & Hpair) Hrun.
  rewrite encryptTo_run in Hrun.
  apply bind_inv in Hrun as (key & w0 & Hkey & Hrun).
  unfold key_or_create in Hkey.
  apply bind_inv in Hkey as (k & w1 & Hcreate & Hkey).
  unfold ret in Hkey. injection Hkey as <- <-.
  unfold AES_create, draw in Hcreate.
  destruct (Hgen (entropy w)) as (k0 & s0 & Hg & _ & raw & Hexp & Hlen & Himp).
  rewrite Hg in Hcreate. injection Hcreate as <- <-.
  apply encryptTo_with_inv in Hrun
    as (kb & w2 & k & w3 & nonce & s & c & m & w4 & wrapped & s'
        & Hkb & Hk & Hn & He & Hm & Hw & -> & _).
  unfold import_if_string, ret in Hkb. injection Hkb as <- <-.
  unfold resolved, ret in Hk. injection Hk as <- <-.
  unfold exported_or_given, AES_export, bind, call, ret in Hm.
  rewrite Hexp in Hm. injection Hm as <- <-.
  cbn [entropy logged] in Hw.
  destruct (Hpair raw s Hlen) as (c' & s'' & Hw' & Hdec).
  rewrite Hw in Hw'. injection Hw' as <- <-.
  exists wrapped, nonce, c, raw, k0. repeat split; try assumption.
  - rewrite (Hwrap _ _ _ _ _ Hw). exact Hmod.
  - apply (f_equal fst) in Hn. cbn [fst] in Hn. rewrite <- Hn.
    apply Hrandom.
Qed.

(** For a valid key pair and no supplied key, [encryptTo] succeeds. *)
Lemma seal_succeeds content K w :
  random_length -> generated_key_usable -> valid_exchange_keypair K ->
  exists env w',
    encryptTo content (PubHandle (kp_publicKey K)) None w = (Ok env, w').
Proof.
  intros Hrandom Hgen (_ & _ & Hpair).
  destruct (Hgen (entropy w)) as (k & s & Hg & Henc & raw & Hexp & Hlen & _).
  unfold encryptTo, key_or_create, AES_create, import_if_string,
    AES_encrypt, encrypt, resolved, encryptBytes, encryptKeyTo,
    exported_or_given, AES_export, bind, ret, draw, call, logged.
  rewrite Hg. cbn [entropy calls].
  pose proof (Hrandom IV_LENGTH s) as Hiv.
  destruct (randomBuf IV_LENGTH s) as [nonce s1]. cbn [fst] in Hiv.
  specialize (Henc nonce (normalizeUnicodeToBuf
                            (MsgBuf (content_bytes content))
                            DEFAULT_CHAR_SIZE) Hiv).
  destruct (subtle_encrypt AES_GCM nonce k _) as [c|e]; [|discriminate].
  cbn [entropy calls]. rewrite Hexp. cbn [entropy calls].
  destruct (Hpair raw s1 Hlen) as (wrapped & s2 & Hw & _).
  rewrite Hw. eexists. eexists. reflexivity.
Qed.

(** C2.  On a platform that meets the contracts, and for a valid key
    pair for the exchange: sealing to the public key of the pair
    succeeds, and opening the envelope with the pair returns, for a byte
    sequence, that byte sequence, and for a string, the bytes of the
    string ([fromString]), not the string. *)
Theorem envelope_roundtrip K w :
  random_length -> wrap_length -> symmetric_correct ->
  generated_key_usable -> valid_exchange_keypair K ->
  (forall b : bytes,
     exists env w',
       encryptTo (MsgBuf b) (PubHandle (kp_publicKey K)) None w
         = (Ok env, w')
       /\ forall w'', fst (openFrom env K w'') = Ok b)
  /\ (forall s : string,
        exists env w',
          encryptTo (MsgStr s) (PubHandle (kp_publicKey K)) None w
            = (Ok env, w')
          /\ forall w'', fst (openFrom env K w'') = Ok (fromString s)).
Proof.
  intros Hrandom Hwrap Hsym Hgen HK.
  assert (Hall : forall content,
             exists env w',
               encryptTo content (PubHandle (kp_publicKey K)) None w
                 = (Ok env, w')
               /\ forall w'',
                    fst (openFrom env K w'') = Ok (content_bytes content)).
  { intros content.
    destruct (seal_succeeds content w Hrandom Hgen HK) as (env & w' & Hrun).
    exists env, w'. split; [exact Hrun|]. intros w''.
    pose proof Hrun as Hparts.
    apply sealed_parts in Hparts; try assumption.
    destruct Hparts
      as (wrapped & nonce & c & raw & k & -> & Hlw & Hln & Henc & Hdec
          & Himp).
    erewrite openFrom_parts by eassumption.
    apply Hsym. exact Henc. }
  split.
  - intros b. exact (Hall (MsgBuf b)).
  - intros s. exact (Hall (MsgStr s)).
Qed.

(** What a successful opening did. *)
Lemma openFrom_ok_inv K wrappedKey nonce c w :
  List.length wrappedKey = kp_size K / 8 ->
  List.length nonce = IV_LENGTH ->
  is_ok (fst (openFrom (wrappedKey ++ nonce ++ c) K w)) = true ->
  exists raw k,
    asymmetricDecrypt wrappedKey (kp_privateKey K) = Ok raw
    /\ subtle_importKey raw AES_GCM SymmKeyLength_B256 = Ok k
    /\ is_ok (subtle_decrypt AES_GCM nonce k c) = true.
Proof.
  intros Hw Hn Hok.
  destruct (asymmetricDecrypt wrappedKey (kp_privateKey K)) as [raw|e] eqn:Hd.
  - destruct (subtle_importKey raw AES_GCM SymmKeyLength_B256)
      as [k|e] eqn:Hi.
    + erewrite openFrom_parts in Hok by eassumption. now exists raw, k.
    + revert Hok. unfold openFrom.
      rewrite (firstn_exact _ _ Hw).
      unfold bind at 1. unfold call at 1. rewrite Hd.
      unfold AES_import, key_material_of, lift, importAesKey.
      unfold bind at 1. unfold bind at 1. unfold call at 1.
      cbn [length_or_default]. rewrite Hi. discriminate.
  - revert Hok. unfold openFrom.
    rewrite (firstn_exact _ _ Hw).
    unfold bind at 1. unfold call at 1. rewrite Hd. discriminate.
Qed.


End Opening.

(** ** Identifiers *)

Section Strings.

Lemma prefix_append t s : prefix t (t ++ s) = true.
Proof.
  induction t as [|a t IH]; simpl; [now destruct s|].
  destruct (ascii_dec a a); [exact IH | congruence].
Qed.

Lemma drop_append t s : Identifier.drop (String.length t) (t ++ s) = s.
Proof. induction t as [|a t IH]; [now destruct s | exact IH]. Qed.

(** Two prefixes of one string: one is a prefix of the other. *)
Lemma prefix_comparable t1 t2 s :
  prefix t1 s = true -> prefix t2 s = true ->
  prefix t1 t2 = true \/ prefix t2 t1 = true.
Proof.
  revert t1 t2. induction s as [|c s IH]; intros [|a t1] [|b t2];
    simpl; auto; try discriminate.
  destruct (ascii_dec a c); [subst|discriminate].
  destruct (ascii_dec b c); [subst|discriminate].
  destruct (ascii_dec c c); [|congruence]. apply IH.
Qed.

End Strings.

Section IdentifierFacts.

Import Identifier.

Variable table : list Tag.
Variable base_encode : bytes -> string.
Variable base_decode : string -> option bytes.

Lemma tag_for_sound algorithm usage t :
  tag_for table algorithm usage = Some t ->
  In t table /\ tag_algorithm t = algorithm /\ tag_usage t = usage.
Proof.
  unfold tag_for. intros H. apply find_some in H as [Hin Heq].
  apply andb_prop in Heq as [Ha Hu]. split; [exact Hin|]. split.
  - destruct (tag_algorithm t), algorithm; (reflexivity || discriminate).
  - destruct (tag_usage t), usage; (reflexivity || discriminate).
Qed.

Lemma longest_tag_sound identifier tags t :
  longest_tag identifier tags = Some t ->
  In t tags /\ prefix (tag_text t) identifier = true.
Proof.
  revert t. induction tags as [|x tags IH]; intros t; simpl; [discriminate|].
  destruct (prefix (tag_text x) identifier) eqn:Hx.
  - destruct (longest_tag identifier tags) as [t'|].
    + destruct (String.length (tag_text x) <? String.length (tag_text t'));
        intros H; injection H as <-.
        * destruct (IH t' eq_refl). auto.
        * auto.
    + intros H. injection H as <-. auto.
  - intros H. destruct (IH t H). auto.
Qed.

Lemma longest_tag_complete identifier tags t :
  In t tags -> prefix (tag_text t) identifier = true ->
  exists t', longest_tag identifier tags = Some t'.
Proof.
  induction tags as [|x tags IH]; simpl; [tauto|].
  intros [->|Hin] Ht.
  - rewrite Ht. destruct (longest_tag identifier tags) as [t'|];
      [destruct (_ <? _)|]; eauto.
  - destruct (IH Hin Ht) as [t' ->].
    destruct (prefix (tag_text x) identifier);
      [destruct (_ <? _)|]; eauto.
Qed.

(** C3.  For a table in which no tag is a prefix of another, and a base
    encoding that can be undone: every valid triple of public key bytes,
    algorithm and usage has one identifier, and decoding it returns the
    same bytes, algorithm and usage. *)
Theorem identifier_roundtrip publicKeyBytes algorithm usage :
  prefix_free table ->
  base_codec base_encode base_decode ->
  valid table publicKeyBytes algorithm usage ->
  exists identifier,
    encode table base_encode publicKeyBytes algorithm usage = Ok identifier
    /\ (forall other,
          encode table base_encode publicKeyBytes algorithm usage = Ok other ->
          other = identifier)
    /\ decode table base_decode identifier
       = Ok (publicKeyBytes, algorithm, usage).
Proof.
  intros Hfree Hcodec (t & Ht & Hlen).
  destruct (tag_for_sound _ _ Ht) as (Hin & Ha & Hu).
  unfold encode. rewrite Ht. eexists. split; [reflexivity|]. split.
  - intros other H. now injection H.
  - unfold decode.
    pose proof (prefix_append (tag_text t) (base_encode publicKeyBytes))
      as Hp.
    assert (exists t', longest_tag
                         (tag_text t ++ base_encode publicKeyBytes) table
                       = Some t') as [t' Ht'].
    { eapply longest_tag_complete; eassumption. }
    rewrite Ht'. apply longest_tag_sound in Ht' as [Hin' Hp'].
    assert (t' = t) as ->.
    { assert (prefix (tag_text t') (tag_text t) = true
              \/ prefix (tag_text t) (tag_text t') = true) as [H|H].
      { eapply prefix_comparable; eassumption. }
      - now apply Hfree.
      - symmetry. now apply Hfree. }
    rewrite drop_append, Hcodec, Hlen, Nat.eqb_refl. now rewrite Ha, Hu.
Qed.

End IdentifierFacts.

Lemma hex_byte_digits b :
  Identifier.hex_byte (Identifier.hex_digit (Byte.to_N b / 16))
    (Identifier.hex_digit (Byte.to_N b mod 16)) = Some b.
Proof. destruct b; reflexivity. Qed.

Lemma hex_codec : Identifier.base_codec Identifier.hex_encode Identifier.hex_decode.
Proof.
  intros bs. induction bs as [|b bs IH]; [reflexivity|].
  cbn [Identifier.hex_encode Identifier.hex_decode].
  now rewrite hex_byte_digits, IH.
Qed.

Lemma example_table_prefix_free :
  Identifier.prefix_free Identifier.example_table.
Proof.
  intros t1 t2 [<-|[<-|[]]] [<-|[<-|[]]]; simpl; intros H;
    (reflexivity || discriminate).
Qed.

(** ** The executable provider meets the contracts *)

Section ReferenceFacts.

Import Reference.

Lemma flip_byte_bit_neq j b : j < 8 -> flip_byte_bit j b <> b.
Proof.
  intros Hj.
  do 8 (destruct j as [|j]; [destruct b; discriminate|]). lia.
Qed.

Lemma flip_bit_app_l a b i :
  i < 8 * List.length a -> flip_bit i (a ++ b) = flip_bit i a ++ b.
Proof.
  revert i. induction a as [|x a IH]; intros i Hi; cbn in Hi; [lia|].
  cbn [app flip_bit]. destruct (i <? 8) eqn:Hlt; [reflexivity|].
  apply Nat.ltb_ge in Hlt. cbn [app]. rewrite IH by lia. reflexivity.
Qed.

(** A flipped bit changes one byte of the buffer. *)
Lemma flip_bit_inside i l :
  i < 8 * List.length l ->
  exists l1 b l2 j,
    j < 8 /\ l = l1 ++ b :: l2
    /\ flip_bit i l = l1 ++ flip_byte_bit j b :: l2.
Proof.
  revert i. induction l as [|x l IH]; intros i Hi; cbn in Hi; [lia|].
  cbn [flip_bit]. destruct (i <? 8) eqn:Hlt.
  - apply Nat.ltb_lt in Hlt. now exists [], x, l, i.
  - apply Nat.ltb_ge in Hlt.
    destruct (IH (i - 8)) as (l1 & b & l2 & j & Hj & Hl & Hf); [lia|].
    exists (x :: l1), b, l2, j. split; [exact Hj|]. split.
    + now rewrite Hl at 1.
    + now rewrite Hf.
Qed.

Lemma to_N_inj a b : Byte.to_N a = Byte.to_N b -> a = b.
Proof.
  intros H. pose proof (Byte.of_to_N a) as Ha.
  rewrite H, Byte.of_to_N in Ha. now injection Ha.
Qed.

Lemma byte_of_N_mod a b :
  byte_of_N a = byte_of_N b -> (a mod 256 = b mod 256)%N.
Proof.
  unfold byte_of_N. intros H.
  destruct (Byte.of_N (a mod 256)) as [x|] eqn:Ha.
  - destruct (Byte.of_N (b mod 256)) as [y|] eqn:Hb.
    + apply Byte.to_of_N in Ha, Hb. now rewrite <- Ha, <- Hb, H.
    + apply Byte.of_N_None_iff in Hb.
      pose proof (N.mod_upper_bound b 256). lia.
  - apply Byte.of_N_None_iff in Ha.
    pose proof (N.mod_upper_bound a 256). lia.
Qed.

Lemma sumN_app a b : sumN (a ++ b) = (sumN a + sumN b)%N.
Proof.
  induction a as [|x a IH]; [reflexivity|]. cbn [app sumN fold_right].
  fold (sumN (a ++ b)). fold (sumN a). rewrite IH. lia.
Qed.

(** The checksum sees the change of one byte. *)
Lemma checksum_change pre b b' post :
  b <> b' -> checksum (pre ++ b :: post) <> checksum (pre ++ b' :: post).
Proof.
  intros Hne Heq. apply Hne, to_N_inj.
  apply byte_of_N_mod in Heq. rewrite !sumN_app in Heq.
  cbn [sumN fold_right] in Heq. fold (sumN post) in Heq.
  pose proof (Byte.to_N_bounded b). pose proof (Byte.to_N_bounded b').
  assert (forall x y z, ((x + (y + z)) mod 256 = ((x + z) mod 256 + y) mod 256)%N)
    as Hmod.
  { intros x y z. rewrite N.Div0.add_mod_idemp_l. f_equal. lia. }
  rewrite !Hmod in Heq.
  pose proof (N.mod_upper_bound (sumN pre + sumN post) 256) as Hr.
  remember ((sumN pre + sumN post) mod 256)%N as r.
  assert (r < 256)%N by (apply Hr; lia).
  destruct (N.lt_ge_cases (r + Byte.to_N b) 256) as [Hb|Hb];
    destruct (N.lt_ge_cases (r + Byte.to_N b') 256) as [Hb'|Hb'].
  - rewrite !N.mod_small in Heq by assumption. lia.
  - rewrite (N.mod_small (r + Byte.to_N b)) in Heq by assumption.
    replace (r + Byte.to_N b')%N with ((r + Byte.to_N b' - 256) + 1 * 256)%N
      in Heq by lia.
    rewrite N.Div0.mod_add, N.mod_small in Heq by lia. lia.
  - rewrite (N.mod_small (r + Byte.to_N b')) in Heq by assumption.
    replace (r + Byte.to_N b)%N with ((r + Byte.to_N b - 256) + 1 * 256)%N
      in Heq by lia.
    rewrite N.Div0.mod_add, N.mod_small in Heq by lia. lia.
  - replace (r + Byte.to_N b)%N with ((r + Byte.to_N b - 256) + 1 * 256)%N
      in Heq by lia.
    replace (r + Byte.to_N b')%N with ((r + Byte.to_N b' - 256) + 1 * 256)%N
      in Heq by lia.
    rewrite !N.Div0.mod_add, !N.mod_small in Heq by lia. lia.
Qed.

Lemma random_bytes_length n s : List.length (random_bytes n s) = n.
Proof. unfold random_bytes. now rewrite length_map, length_seq. Qed.

Lemma reference_random_length : random_length.
Proof. intros n s. apply random_bytes_length. Qed.

Lemma reference_wrap_length : wrap_length.
Proof.
  intros m [k|b|str] s c s'; cbn; try discriminate.
  unfold wrap.
  destruct (_ && (_ <=? _) && _) eqn:Hc; [|discriminate].
  intros H. injection H as <- _.
  apply andb_prop in Hc as [Hc _]. apply andb_prop in Hc as [_ Hc].
  apply Nat.leb_le in Hc.
  cbn [List.length]. rewrite length_app, random_bytes_length. lia.
Qed.

Lemma reference_symmetric_correct : symmetric_correct.
Proof.
  intros iv k data c. cbn. unfold seal, unseal.
  destruct (usable AES_GCM k); [|discriminate].
  intros H. injection H as <-.
  rewrite rev_app_distr. cbn [rev app]. rewrite rev_involutive.
  now rewrite (Byte.byte_dec_lb eq_refl).
Qed.

Lemma reference_symmetric_authentic : symmetric_authentic.
Proof.
  intros iv k c i. cbn. unfold unseal.
  destruct (usable AES_GCM k); [|discriminate].
  destruct (rev c) as [|t rdata] eqn:Hrev; [discriminate|].
  apply (f_equal (@rev byte)) in Hrev. rewrite rev_involutive in Hrev.
  cbn [rev] in Hrev. subst c. set (data := rev rdata).
  destruct (Byte.eqb t (tag_of iv k data)) eqn:Ht; [|discriminate].
  apply Byte.byte_dec_bl in Ht. subst t. intros _ Hi.
  rewrite length_app in Hi. cbn [List.length] in Hi.
  destruct (Nat.lt_ge_cases i (8 * List.length data)) as [Hin|Hout].
  - rewrite flip_bit_app_l by exact Hin.
    rewrite rev_app_distr. cbn [rev app]. rewrite rev_involutive.
    destruct (Byte.eqb _ _) eqn:Heq; [|reflexivity].
    apply Byte.byte_dec_bl in Heq. exfalso. revert Heq.
    destruct (flip_bit_inside data Hin)
      as (l1 & b & l2 & j & Hj & Hl & Hf).
    rewrite Hf. rewrite Hl at 1. unfold tag_of.
    rewrite !(app_assoc (key_material k)), !(app_assoc _ l1).
    apply checksum_change. intros Hb. symmetry in Hb.
    revert Hb. apply flip_byte_bit_neq. exact Hj.
  - replace i with (8 * List.length data + (i - 8 * List.length data))
      by lia.
    rewrite flip_bit_app_r. cbn [flip_bit].
    replace (i - 8 * List.length data <? 8) with true
      by (symmetry; apply Nat.ltb_lt; lia).
    rewrite rev_app_distr. cbn [rev app]. rewrite rev_involutive.
    destruct (Byte.eqb _ _) eqn:Heq; [|reflexivity].
    apply Byte.byte_dec_bl in Heq. exfalso.
    revert Heq. apply flip_byte_bit_neq. lia.
Qed.

Lemma reference_generated_key_usable : generated_key_usable.
Proof.
  intros s.
  exists {| key_kind := Secret; key_alg := AES_GCM; key_bits := 256;
            key_material := random_bytes 32 s |}, (s + 32).
  split; [reflexivity|]. split.
  - intros iv data _. reflexivity.
  - exists (random_bytes 32 s). split; [reflexivity|]. split.
    + apply random_bytes_length.
    + change (importRaw (random_bytes 32 s) AES_GCM SymmKeyLength_B256
              = Ok {| key_kind := Secret; key_alg := AES_GCM;
                      key_bits := 256;
                      key_material := random_bytes 32 s |}).
      unfold importRaw. rewrite random_bytes_length. reflexivity.
Qed.

Lemma reference_valid_exchange_keypair : valid_exchange_keypair exchangePair.
Proof.
  split; [reflexivity|]. split; [reflexivity|].
  intros raw s Hlen.
  exists (byte_of_N 32 :: raw ++ random_bytes 31 s), (s + 31). split.
  - change (wrap (MsgBuf raw) (PubHandle (kp_publicKey exchangePair)) s
            = (Ok (byte_of_N 32 :: raw ++ random_bytes 31 s), s + 31)).
    unfold wrap. cbn [kp_publicKey exchangePair key_kind key_bits].
    rewrite Hlen. reflexivity.
  - change (unwrap (byte_of_N 32 :: raw ++ random_bytes 31 s)
              (kp_privateKey exchangePair) = Ok raw).
    unfold unwrap. cbn [kp_privateKey exchangePair key_kind key_bits].
    cbn [List.length]. rewrite length_app, random_bytes_length, Hlen.
    change (S (32 + 31) =? N.to_nat (512 / 8)) with true.
    change (N.to_nat (Byte.to_N (byte_of_N 32))) with 32.
    cbv iota. now rewrite firstn_exact by exact Hlen.
Qed.

Lemma reference_import_checks_length : import_checks_length.
Proof.
  intros raw alg len. cbn. unfold importRaw.
  destruct (accepted_length (List.length raw)); reflexivity.
Qed.

End ReferenceFacts.

(** ** Signatures *)

Section Signatures.

Context {P : Provider}.

(** A failure to resolve the signer is outside the [try] block: it is
    the outcome of [verify]. *)
Lemma verify_resolution_failure msg sig did e w :
  didToPublicKey did = Err e -> verify msg sig did w = (Err e, w).
Proof. intros H. unfold verify, bind, lift. now rewrite H. Qed.

(** The promise of [rsaOperations.verify] is returned, not awaited: its
    rejection is the outcome of [verify], and only what the call throws
    becomes [false]. *)
Lemma verify_outcome msg sig did dk key w :
  didToPublicKey did = Ok dk ->
  importPublicKey (publicKey dk) SHA_256 Sign = Ok key ->
  verify msg sig did w =
  (match rsaOperations_verify msg sig key with
   | Threw _ => Ok false
   | Promised r => r
   end, w).
Proof.
  intros Hd Hk. unfold verify, bind, lift, ret. rewrite Hd, Hk.
  destruct (rsaOperations_verify msg sig key) as [e|[b|e]]; reflexivity.
Qed.

End Signatures.

(** C1.  [verify] does not return a boolean for every input: for a
    signer identifier that is not an identifier, the resolution of the
    key fails before the [try] block is entered, and [verify] rejects. *)
Theorem verify_rejects_malformed_identifier :
  fst (verify Reference.hello (MsgBuf [x00]) "not-a-did" Reference.world0)
    = Err MalformedIdentifier.
Proof. vm_compute. reflexivity. Qed.

(** ** The contracts hold together: runs on the executable provider *)

Section Runs.

Import Reference.

Lemma envelope_roundtrip_witness :
  (forall b : bytes,
     exists env w',
       encryptTo (MsgBuf b) recipient None world0 = (Ok env, w')
       /\ forall w'', fst (openFrom env exchangePair w'') = Ok b)
  /\ (forall s : string,
        exists env w',
          encryptTo (MsgStr s) recipient None world0 = (Ok env, w')
          /\ forall w'',
               fst (openFrom env exchangePair w'') = Ok (fromString s)).
Proof.
  exact (@envelope_roundtrip provider exchangePair world0
           reference_random_length reference_wrap_length
           reference_symmetric_correct reference_generated_key_usable
           reference_valid_exchange_keypair).
Defined.

(** What the opening of the sealed string returns is a byte sequence,
    the bytes of the string, and not the string that was sealed. *)
Lemma envelope_roundtrip_counterexample :
  encryptTo hello recipient None world0 = (Ok sealed_hello, world_after_seal)
  /\ fst (openFrom sealed_hello exchangePair world_after_seal)
     = Ok (string_bytes "hello")
  /\ ~ (exists opened,
          fst (openFrom sealed_hello exchangePair world_after_seal)
            = Ok opened
          /\ MsgBuf opened = hello).
Proof.
  split; [reflexivity|]. split; [vm_compute; reflexivity|].
  intros (opened & _ & H). discriminate H.
Qed.

Lemma identifier_roundtrip_witness :
  Identifier.valid Identifier.example_table [x01; x02; x03; x04]
    Identifier.RsaSigning Sign
  /\ exists identifier,
       Identifier.encode Identifier.example_table Identifier.hex_encode
         [x01; x02; x03; x04] Identifier.RsaSigning Sign = Ok identifier
       /\ (forall other,
             Identifier.encode Identifier.example_table
               Identifier.hex_encode [x01; x02; x03; x04]
               Identifier.RsaSigning Sign = Ok other ->
             other = identifier)
       /\ Identifier.decode Identifier.example_table Identifier.hex_decode
            identifier
          = Ok ([x01; x02; x03; x04], Identifier.RsaSigning, Sign).
Proof.
  assert (Hvalid : Identifier.valid Identifier.example_table
                     [x01; x02; x03; x04] Identifier.RsaSigning Sign).
  { eexists. split; reflexivity. }
  split; [exact Hvalid|].
  exact (@identifier_roundtrip Identifier.example_table
           Identifier.hex_encode Identifier.hex_decode
           [x01; x02; x03; x04] Identifier.RsaSigning Sign
           example_table_prefix_free hex_codec Hvalid).
Defined.



(** The empty string is a false value: [aesKey || await AES.create()]
    takes it for an absent key, and a key is generated. *)
Example encryptTo_empty_string_key :
  calls (snd (encryptTo hello recipient (Some (KeyStr "")) world0))
    = calls (snd (encryptTo hello recipient None world0))
  /\ hd_error (calls (snd (encryptTo hello recipient (Some (KeyStr ""))
                             world0)))
     = Some (CallGenerateKey DEFAULT_SYMM_ALGORITHM DEFAULT_SYMM_LENGTH).
Proof. split; vm_compute; reflexivity. Qed.

(** A signature made for the message under the key of the identifier is
    accepted, and one made for another message is not. *)
Example verify_genuine_and_forged :
  fst (verify hello
         (MsgBuf [checksum ([x01; x02; x03; x04] ++ msg_bytes hello)])
         "key:s:01020304" world0) = Ok true
  /\ fst (verify (MsgStr "goodbye")
            (MsgBuf [checksum ([x01; x02; x03; x04] ++ msg_bytes hello)])
            "key:s:01020304" world0) = Ok false.
Proof. split; vm_compute; reflexivity. Qed.

End Runs.

(** * More properties of the code *)

(** ** [verify] *)

Section VerifyOutcomes.

Context {P : Provider}.

(** X1.  [verify] answers [true] only when the signer resolved, its key
    was imported for signing with SHA-256, and the platform accepted the
    signature for the message under that key. *)
Theorem verify_true_only_if_accepted msg sig did w :
  fst (verify msg sig did w) = Ok true ->
  exists dk key,
    didToPublicKey did = Ok dk
    /\ importPublicKey (publicKey dk) SHA_256 Sign = Ok key
    /\ rsaOperations_verify msg sig key = Promised (Ok true).
Proof.
  unfold verify, bind, lift, ret.
  destruct (didToPublicKey did) as [dk|e] eqn:Hd; [|discriminate].
  destruct (importPublicKey (publicKey dk) SHA_256 Sign) as [key|e] eqn:Hk;
    [|discriminate].
  destruct (rsaOperations_verify msg sig key) as [e|[b|e]] eqn:Hv;
    cbn; intros H; try discriminate.
  injection H as ->. exists dk, key. repeat split; assumption.
Qed.

(** X2.  [verify] rejects, with the error at hand, when the signer does
    not resolve, when its key cannot be imported, and when the promise
    of [rsaOperations.verify] rejects; it answers [false] for an error
    only when the call of [rsaOperations.verify] itself throws.  In all
    four cases the world is left as it was. *)
Theorem verify_failures msg sig did w :
  (forall e, didToPublicKey did = Err e ->
     verify msg sig did w = (Err e, w))
  /\ (forall dk e, didToPublicKey did = Ok dk ->
        importPublicKey (publicKey dk) SHA_256 Sign = Err e ->
        verify msg sig did w = (Err e, w))
  /\ (forall dk key e, didToPublicKey did = Ok dk ->
        importPublicKey (publicKey dk) SHA_256 Sign = Ok key ->
        rsaOperations_verify msg sig key = Promised (Err e) ->
        verify msg sig did w = (Err e, w))
  /\ (forall dk key e, didToPublicKey did = Ok dk ->
        importPublicKey (publicKey dk) SHA_256 Sign = Ok key ->
        rsaOperations_verify msg sig key = Threw e ->
        verify msg sig did w = (Ok false, w)).
Proof.
  repeat split.
  - intros e He. unfold verify, bind, lift. now rewrite He.
  - intros dk e Hd He. unfold verify, bind, lift. now rewrite Hd, He.
  - intros dk key e Hd Hk Hv. unfold verify, bind, lift.
    now rewrite Hd, Hk, Hv.
  - intros dk key e Hd Hk Hv. unfold verify, bind, lift, ret.
    now rewrite Hd, Hk, Hv.
Qed.

End VerifyOutcomes.

(** ** [encrypt], [encryptBytes], [decryptBytes], [AES.decrypt] *)

Section SymmetricRoundTrips.

Context {P : Provider}.

(** The key that a key argument resolves to is the same in every
    world. *)
Lemma resolved_anywhere cryptoKey w k w1 w' :
  resolved cryptoKey w = (Ok k, w1) ->
  exists w2, resolved cryptoKey w' = (Ok k, w2).
Proof.
  destruct cryptoKey as [h|b];
    unfold resolved, ret, importAesKey, call, length_or_default.
  - intros H. injection H as <- _. now eexists.
  - intros H. injection H as H _. rewrite H. now eexists.
Qed.

(** What a successful [encrypt] with a given iv did. *)
Lemma encrypt_given_inv data cryptoKey format iv w buf w' :
  encrypt data cryptoKey format (Some iv) w = (Ok buf, w') ->
  exists k w1 c,
    resolved cryptoKey w = (Ok k, w1)
    /\ subtle_encrypt AES_GCM iv k data = Ok c
    /\ buffer_bytes buf = c.
Proof.
  unfold encrypt. intros H.
  apply bind_inv in H as (k & w1 & Hk & H).
  apply bind_inv in H as (c & w2 & Hc & H).
  unfold ret in H. injection H as <- _.
  unfold call in Hc. injection Hc as Hc _.
  exists k, w1, c. repeat split; try assumption.
  destruct format as [[|]|]; reflexivity.
Qed.

(** The decryption that [AES.decrypt] without iv comes down to, for a
    buffer and a key that resolves. *)
Lemma AES_decrypt_omitted_fst x cryptoKey k w w2 :
  resolved cryptoKey w = (Ok k, w2) ->
  fst (AES_decrypt (MsgBuf x) cryptoKey None w)
    = subtle_decrypt AES_GCM (firstn IV_LENGTH x) k (skipn IV_LENGTH x).
Proof.
  intros Hk. erewrite AES_decrypt_omitted by reflexivity.
  erewrite bind_ok by exact Hk. unfold bind, call, ret.
  destruct (subtle_decrypt AES_GCM _ k _); reflexivity.
Qed.

Lemma AES_decrypt_given_fst x cryptoKey iv k w w2 :
  resolved cryptoKey w = (Ok k, w2) ->
  fst (AES_decrypt (MsgBuf x) cryptoKey (Some iv) w)
    = subtle_decrypt AES_GCM iv k x.
Proof.
  intros Hk. rewrite AES_decrypt_given.
  erewrite bind_ok by exact Hk. unfold bind, call, ret. cbn [given_bytes].
  destruct (subtle_decrypt AES_GCM iv k x); reflexivity.
Qed.

(** X3.  What [encrypt] returns when no iv is given, [AES.decrypt]
    without iv turns back into the data, under the same key argument
    (a handle or raw bytes) and in any world. *)
Theorem encrypt_decrypt_roundtrip data cryptoKey format w buf w' :
  random_length -> symmetric_correct ->
  encrypt data cryptoKey format None w = (Ok buf, w') ->
  forall w'',
    fst (AES_decrypt (MsgBuf (buffer_bytes buf)) cryptoKey None w'')
      = Ok data.
Proof.
  intros Hrandom Hsym Hrun w''.
  apply encrypt_fresh_inv in Hrun
    as (k & w1 & nonce & s & c & Hk & Hn & He & Hb & _).
  destruct (resolved_anywhere cryptoKey w w'' Hk) as [w2 Hk'].
  erewrite AES_decrypt_omitted_fst by exact Hk'. rewrite Hb.
  assert (Hlen : List.length nonce = IV_LENGTH).
  { apply (f_equal fst) in Hn. cbn [fst] in Hn. rewrite <- Hn.
    apply Hrandom. }
  rewrite (firstn_exact _ _ Hlen), (skipn_exact _ _ Hlen).
  apply Hsym. exact He.
Qed.

(** X4.  What [encrypt] returns for a given iv is the ciphertext alone,
    what the platform returns for the data under that iv, with nothing
    in front.  [AES.decrypt] turns it back into the data when it is
    given the same iv, of any length, and, for an iv of 12 bytes, when
    it is given the iv followed by the output and no iv. *)
Theorem encrypt_given_iv_roundtrip data cryptoKey format iv w buf w' :
  symmetric_correct ->
  encrypt data cryptoKey format (Some iv) w = (Ok buf, w') ->
  (exists k w1,
     resolved cryptoKey w = (Ok k, w1)
     /\ subtle_encrypt AES_GCM iv k data = Ok (buffer_bytes buf))
  /\ forall w'',
       fst (AES_decrypt (MsgBuf (buffer_bytes buf)) cryptoKey (Some iv) w'')
         = Ok data
       /\ (List.length iv = IV_LENGTH ->
           fst (AES_decrypt (MsgBuf (iv ++ buffer_bytes buf)) cryptoKey
                  None w'')
             = Ok data).
Proof.
  intros Hsym Hrun.
  apply encrypt_given_inv in Hrun as (k & w1 & c & Hk & He & Hb).
  rewrite Hb. split; [now exists k, w1|]. intros w''.
  destruct (resolved_anywhere cryptoKey w w'' Hk) as [w2 Hk'].
  split.
  - erewrite AES_decrypt_given_fst by exact Hk'. apply Hsym. exact He.
  - intros Hlen. erewrite AES_decrypt_omitted_fst by exact Hk'.
    rewrite (firstn_exact _ _ Hlen), (skipn_exact _ _ Hlen).
    apply Hsym. exact He.
Qed.

(** X5.  [encryptBytes] with an iv in its options returns that iv
    followed by what [encrypt] returns for the same iv, in the same
    world after it, and fails when [encrypt] fails: the nonce is
    prefixed by [encryptBytes] and not by [encrypt]. *)
Theorem encryptBytes_prefixes_given_iv data k iv charsize format w :
  encryptBytes (MsgBuf data) (HandleS k)
    (Some {| enc_iv := Some iv; enc_charsize := charsize |}) w
  = match encrypt data (HandleK k) format (Some iv) w with
    | (Ok b, w') => (Ok (iv ++ buffer_bytes b), w')
    | (Err e, w') => (Err e, w')
    end.
Proof.
  unfold encryptBytes, encrypt, resolved, bind, ret, call, joinBufs.
  cbn [normalizeUnicodeToBuf enc_iv].
  destruct (subtle_encrypt AES_GCM iv k data) as [c|e]; [|reflexivity].
  destruct format as [[|]|]; reflexivity.
Qed.

(** X6.  [decryptBytes] never reads the iv, the algorithm or the length
    of its options: with a key handle the options change nothing, and
    with a key string they only reach the import of the key; the iv is
    always the first 12 bytes of the message. *)
Theorem decryptBytes_ignores_options msg k opts w :
  decryptBytes msg (HandleS k) opts w = decryptBytes msg (HandleS k) None w
  /\ forall s, importKey_dec s opts = Ok k ->
       decryptBytes msg (StrS s) opts w
         = decryptBytes msg (HandleS k) None w.
Proof.
  split; [reflexivity|]. intros s Hs.
  unfold decryptBytes, bind, lift, ret.
  destruct (normalizeBase64ToBuf msg) as [x|e]; [|reflexivity].
  now rewrite Hs.
Qed.

(** X7.  For an input of at most 12 bytes (the empty buffer included),
    [AES.decrypt] without iv does not fail by itself: it takes the whole
    input for the iv and asks the platform to decrypt the empty
    ciphertext; the outcome is the platform's. *)
Theorem AES_decrypt_short_input x k w :
  List.length x <= IV_LENGTH ->
  AES_decrypt (MsgBuf x) (HandleK k) None w
    = (subtle_decrypt AES_GCM x k [],
       logged (CallDecrypt AES_GCM x k []) w).
Proof.
  intros Hx. erewrite AES_decrypt_omitted by reflexivity.
  unfold resolved, bind, ret, call.
  rewrite (firstn_all2 (n:=IV_LENGTH) x Hx), (skipn_all2 (n:=IV_LENGTH) x Hx).
  destruct (subtle_decrypt AES_GCM x k []); reflexivity.
Qed.

End SymmetricRoundTrips.

(** ** [encryptTo] and [encryptKeyTo] with a supplied key *)

Section SuppliedKeys.

Context {P : Provider}.

Lemma encryptTo_supplied content pk key w :
  key <> KeyStr "" ->
  encryptTo content pk (Some key) w = encryptTo_with content pk key w.
Proof.
  intros Hkey. rewrite encryptTo_run. unfold bind.
  now rewrite (key_or_create_supplied w Hkey).
Qed.

(** X8.  After [encryptTo] with a supplied key, the holder of that key
    reads the content back without the private key: skip the wrapped
    key, of the length of the modulus, and [AES.decrypt] the rest under
    the handle of the supplied key. *)
Theorem encryptTo_supplied_key_reads content pk key w env w' :
  random_length -> wrap_length -> symmetric_correct ->
  key <> KeyStr "" ->
  encryptTo content pk (Some key) w = (Ok env, w') ->
  exists k,
    handle_of key k
    /\ forall w'',
         fst (AES_decrypt (MsgBuf (skipn (modulusBytes pk) env))
                (HandleK k) None w'')
           = Ok (content_bytes content).
Proof.
  intros Hrandom Hwrap Hsym Hkey Hrun.
  rewrite (encryptTo_supplied content pk w Hkey) in Hrun.
  apply encryptTo_with_inv in Hrun
    as (kb & w1 & k & w2 & nonce & s & c & m & w3 & wrapped & s'
        & Hkb & Hk & Hn & He & _ & Hw & -> & _).
  exists k. split; [eapply handle_of_resolved; eassumption|].
  intros w''.
  assert (Hlw : List.length wrapped = modulusBytes pk).
  { eapply Hwrap. exact Hw. }
  assert (Hln : List.length nonce = IV_LENGTH).
  { apply (f_equal fst) in Hn. cbn [fst] in Hn. rewrite <- Hn.
    apply Hrandom. }
  rewrite (skipn_exact _ _ Hlw).
  erewrite AES_decrypt_omitted_fst by reflexivity.
  rewrite (firstn_exact _ _ Hln), (skipn_exact _ _ Hln).
  apply Hsym. exact He.
Qed.

(** X9.  A supplied key that cannot be imported stops [encryptTo] at
    once: it rejects with the error of the import (or of the decoding of
    the string), after that one call at most, without drawing a nonce,
    encrypting the content or wrapping anything. *)
Theorem encryptTo_bad_key_rejects_early content pk w :
  (forall b e,
     subtle_importKey b AES_GCM SymmKeyLength_B256 = Err e ->
     encryptTo content pk (Some (KeyBytes b)) w
       = (Err e, logged (CallImportKey b AES_GCM SymmKeyLength_B256) w))
  /\ (forall s raw e, s <> ""%string ->
        base64ToArrBuf s = Ok raw ->
        subtle_importKey raw AES_GCM SymmKeyLength_B256 = Err e ->
        encryptTo content pk (Some (KeyStr s)) w
          = (Err e, logged (CallImportKey raw AES_GCM SymmKeyLength_B256) w))
  /\ (forall s e, s <> ""%string ->
        base64ToArrBuf s = Err e ->
        encryptTo content pk (Some (KeyStr s)) w = (Err e, w)).
Proof.
  repeat split.
  - intros b e He.
    rewrite encryptTo_supplied by discriminate.
    unfold encryptTo_with, import_if_string, AES_encrypt, encrypt, resolved,
      importAesKey, bind, ret, call, length_or_default.
    now rewrite He.
  - intros s raw e Hs Hraw He.
    rewrite encryptTo_supplied by congruence.
    unfold encryptTo_with, import_if_string, AES_import, key_material_of,
      importAesKey, bind, lift, ret, call, length_or_default.
    now rewrite Hraw, He.
  - intros s e Hs He.
    rewrite encryptTo_supplied by congruence.
    unfold encryptTo_with, import_if_string, AES_import, key_material_of,
      bind, lift.
    now rewrite He.
Qed.

(** X10.  The empty string as key is the same as no key, for [encryptTo]
    and for [encryptTo.asString]: a key is generated.  The empty byte
    array is a key like any other: on a platform that checks the length
    of raw keys, [encryptTo] rejects it with [InvalidKeyLength] and no
    key is generated in its place. *)
Theorem encryptTo_empty_keys content pk w :
  encryptTo content pk (Some (KeyStr "")) w = encryptTo content pk None w
  /\ encryptTo_asString content pk (Some (KeyStr "")) w
     = encryptTo_asString content pk None w
  /\ (import_checks_length ->
      encryptTo content pk (Some (KeyBytes [])) w
        = (Err InvalidKeyLength,
           logged (CallImportKey [] AES_GCM SymmKeyLength_B256) w)).
Proof.
  split; [reflexivity|]. split; [reflexivity|].
  intros Hcheck.
  rewrite encryptTo_supplied by discriminate.
  unfold encryptTo_with, import_if_string, AES_encrypt, encrypt, resolved,
    importAesKey, bind, ret, call, length_or_default.
  now rewrite (Hcheck [] AES_GCM SymmKeyLength_B256).
Qed.

(** X11.  What a successful [encryptTo] wraps for the recipient depends
    on the form of the supplied key: the raw bytes exported from a
    handle, given bytes as they are, and a string as the string itself,
    not the key bytes it encodes.  The wrapping is the last call of the
    run. *)
Theorem encryptTo_wraps content pk key w env w' :
  key <> KeyStr "" ->
  encryptTo content pk (Some key) w = (Ok env, w') ->
  exists m before,
    wrapped_message key m
    /\ calls w' = before ++ [CallRsaEncrypt m pk].
Proof.
  intros Hkey Hrun.
  rewrite (encryptTo_supplied content pk w Hkey) in Hrun.
  apply encryptTo_with_inv in Hrun
    as (kb & w1 & k & w2 & nonce & s & c & m & w3 & wrapped & s'
        & _ & _ & _ & _ & Hm & _ & _ & ->).
  exists m, (calls w3). split; [|reflexivity].
  eapply exported_or_given_message. exact Hm.
Qed.

(** X12.  A key handle that cannot be exported is of no use as a
    supplied key: [encryptKeyTo] rejects with the error of the export
    and calls nothing else, and [encryptTo] never returns an
    envelope. *)
Theorem unexportable_key_rejected k pk e w :
  subtle_exportKey k = Err e ->
  (forall format,
     encryptKeyTo (KeyHandle k) pk format w
       = (Err e, logged (CallExportKey k) w))
  /\ forall content,
       is_ok (fst (encryptTo content pk (Some (KeyHandle k)) w)) = false.
Proof.
  intros He.
  assert (Hwrap : forall format w0,
             encryptKeyTo (KeyHandle k) pk format w0
               = (Err e, logged (CallExportKey k) w0)).
  { intros format w0.
    unfold encryptKeyTo, exported_or_given, AES_export, bind, call.
    now rewrite He. }
  split; [intros format; apply Hwrap|].
  intros content. rewrite encryptTo_supplied by discriminate.
  unfold encryptTo_with, import_if_string, bind. unfold ret at 1.
  destruct (AES_encrypt (content_bytes content) (HandleK k) None None w)
    as [[c|e'] w2]; [|reflexivity].
  now rewrite Hwrap.
Qed.

(** X13.  The argument [format] of [encrypt] and of [encryptKeyTo]
    decides how the result is seen, a [Uint8Array] unless it is
    ['arraybuffer'], and nothing else: the bytes, the outcome and the
    world after the call are the same for every format. *)
Theorem format_changes_the_view_only data cryptoKey iv key pk f1 f2 w :
  encrypt data cryptoKey f2 iv w
    = match encrypt data cryptoKey f1 iv w with
      | (Ok b, w') => (Ok (as_format f2 (buffer_bytes b)), w')
      | (Err e, w') => (Err e, w')
      end
  /\ encryptKeyTo key pk f2 w
     = match encryptKeyTo key pk f1 w with
       | (Ok b, w') => (Ok (as_format f2 (buffer_bytes b)), w')
       | (Err e, w') => (Err e, w')
       end.
Proof.
  split; [apply encrypt_format|].
  unfold encryptKeyTo, bind.
  destruct (exported_or_given key w) as [[m|e] w1]; [|reflexivity].
  destruct (draw (CallRsaEncrypt m pk) (rsaOperations_encrypt m pk) w1)
    as [[c|e] w2]; [|reflexivity].
  unfold ret. destruct f1 as [[|]|]; reflexivity.
Qed.

End SuppliedKeys.

(** ** String forms and key generation *)

Section TextForms.

Context {P : Provider} {KP : KeyPlatform}.


(** X15.  The string forms return the text of what the binary forms
    return in the same world, and fail exactly when they fail:
    [encryptTo.asString] is the padded base64 of [encryptTo], and
    [encryptKeyTo.asString] is [encryptKeyTo] in the given encoding, or
    in base64 when none is given. *)
Theorem string_forms_agree content key pk aesKey format w :
  encryptTo_asString content pk aesKey w
    = match encryptTo content pk aesKey w with
      | (Ok env, w') => (Ok (toString env base64pad), w')
      | (Err e, w') => (Err e, w')
      end
  /\ encryptKeyTo_asString key pk format w
     = match encryptKeyTo key pk None w with
       | (Ok b, w') => (Ok (text_of format (buffer_bytes b)), w')
       | (Err e, w') => (Err e, w')
       end.
Proof.
  split.
  - unfold encryptTo, encryptTo_asString, AES_encrypt, bind.
    destruct (key_or_create aesKey w) as [[k0|e] w0]; [|reflexivity].
    destruct (import_if_string k0 w0) as [[kb|e] w1]; [|reflexivity].
    rewrite (encrypt_format _ _ None (Some arraybuffer)).
    destruct (encrypt (content_bytes content) kb None None w1)
      as [[c|e] w2]; [|reflexivity].
    destruct (encryptKeyTo k0 pk None w2) as [[ek|e] w3]; [|reflexivity].
    unfold ret. destruct c; reflexivity.
  - unfold encryptKeyTo_asString, bind.
    destruct (encryptKeyTo key pk None w) as [[b|e] w1]; reflexivity.
Qed.

(** X16.  [makeRSAKeypair] rejects a use that is not a [KeyUse] without
    calling the platform.  For the exchange it makes one [generateKey]
    call for [RSA_ALGORITHM] with the usages encrypt and decrypt, for
    signing one for [RSA_SIGN_ALGORITHM] with the usages sign and
    verify; both ask for keys that are not extractable, of the given
    size and hash, with the public exponent 65537, and what the platform
    answers is the outcome.  No usage is asked for both uses. *)
Theorem makeRSAKeypair_requests size hashAlg w :
  makeRSAKeypair size hashAlg UseOther w
    = (Err (ProviderFailure "invalid key use"), w)
  /\ makeRSAKeypair size hashAlg (UseOf Exchange) w
     = (fst (subtle_generateKey_pair
               {| rsa_name := RSA_ALGORITHM; rsa_modulusLength := size;
                  rsa_publicExponent := [x01; x00; x01];
                  rsa_hash := hashAlg |}
               false [usage_encrypt; usage_decrypt] (entropy w)),
        {| entropy :=
             snd (subtle_generateKey_pair
                    {| rsa_name := RSA_ALGORITHM; rsa_modulusLength := size;
                       rsa_publicExponent := [x01; x00; x01];
                       rsa_hash := hashAlg |}
                    false [usage_encrypt; usage_decrypt] (entropy w));
           calls := calls w ++ [CallGenerateKey RSA_ALGORITHM size] |})
  /\ makeRSAKeypair size hashAlg (UseOf Sign) w
     = (fst (subtle_generateKey_pair
               {| rsa_name := RSA_SIGN_ALGORITHM; rsa_modulusLength := size;
                  rsa_publicExponent := [x01; x00; x01];
                  rsa_hash := hashAlg |}
               false [usage_sign; usage_verify] (entropy w)),
        {| entropy :=
             snd (subtle_generateKey_pair
                    {| rsa_name := RSA_SIGN_ALGORITHM;
                       rsa_modulusLength := size;
                       rsa_publicExponent := [x01; x00; x01];
                       rsa_hash := hashAlg |}
                    false [usage_sign; usage_verify] (entropy w));
           calls := calls w ++ [CallGenerateKey RSA_SIGN_ALGORITHM size] |})
  /\ fold_left (fun acc b => (acc * 256 + Byte.to_N b)%N) publicExponent 0%N
     = 65537%N
  /\ (forall x : KeyUsage,
        In x [usage_encrypt; usage_decrypt] ->
        In x [usage_sign; usage_verify] -> False).
Proof.
  split; [reflexivity|]. split.
  { unfold makeRSAKeypair, draw, algorithm_for, usages_for, publicExponent.
    destruct (subtle_generateKey_pair _ false _ (entropy w)); reflexivity. }
  split.
  { unfold makeRSAKeypair, draw, algorithm_for, usages_for, publicExponent.
    destruct (subtle_generateKey_pair _ false _ (entropy w)); reflexivity. }
  split; [reflexivity|].
  intros x H1 H2. cbn in H1, H2.
  destruct H1 as [<-|[<-|[]]]; destruct H2 as [H|[H|[]]]; discriminate.
Qed.

End TextForms.

(** ** [AES.import] *)

Section Importing.

Context {P : Provider}.

(** A handle that encrypts under every nonce of 12 bytes serves
    [encrypt] and [AES.decrypt]: the one succeeds and the other returns
    the data. *)
Lemma handle_serves k :
  random_length -> symmetric_correct ->
  (forall iv data, List.length iv = IV_LENGTH ->
     is_ok (subtle_encrypt AES_GCM iv k data) = true) ->
  forall data w1,
    exists buf w2,
      encrypt data (HandleK k) None None w1 = (Ok buf, w2)
      /\ forall w3,
           fst (AES_decrypt (MsgBuf (buffer_bytes buf)) (HandleK k) None w3)
             = Ok data.
Proof.
  intros Hrandom Hsym Henc data w1.
  pose proof (Hrandom IV_LENGTH (entropy w1)) as Hlen.
  destruct (randomBuf IV_LENGTH (entropy w1)) as [nonce s] eqn:Hn.
  cbn [fst] in Hlen.
  specialize (Henc nonce data Hlen).
  destruct (subtle_encrypt AES_GCM nonce k data) as [c|e] eqn:Hc;
    [|discriminate].
  exists (AsUint8Array (nonce ++ c)),
    {| entropy := s;
       calls := (calls w1 ++ [CallRandomBuf IV_LENGTH])
                ++ [CallEncrypt AES_GCM nonce k data] |}.
  split.
  - unfold encrypt, resolved, encryptBytes, bind, ret, draw, call, logged,
      joinBufs, as_format. cbn [normalizeUnicodeToBuf].
    rewrite Hn. cbn [entropy calls]. now rewrite Hc.
  - intros w3. erewrite AES_decrypt_omitted_fst by reflexivity.
    cbn [buffer_bytes].
    rewrite (firstn_exact _ _ Hlen), (skipn_exact _ _ Hlen).
    apply Hsym. exact Hc.
Qed.

(** C7.  [AES.import] hands the platform the key material itself, the
    bytes given or the bytes that the base64 string decodes to, in one
    [importKey] call for AES-GCM.  On a platform whose import checks the
    length of raw keys and whose imported keys hold their material and
    encrypt: material whose length is not an accepted size of a
    symmetric key is rejected with [InvalidKeyLength]; for material of
    an accepted size a handle comes back that holds exactly that
    material and that [encrypt] and [AES.decrypt] work with. *)
Theorem AES_import_checks_length (key : Msg) (raw : bytes) (w : World) :
  import_checks_length -> imported_key_usable ->
  random_length -> symmetric_correct ->
  import_material key raw ->
  AES_import key w
    = (subtle_importKey raw AES_GCM SymmKeyLength_B256,
       logged (CallImportKey raw AES_GCM SymmKeyLength_B256) w)
  /\ (accepted_length (List.length raw) = false ->
      fst (AES_import key w) = Err InvalidKeyLength)
  /\ (accepted_length (List.length raw) = true ->
      exists k,
        fst (AES_import key w) = Ok k
        /\ subtle_exportKey k = Ok raw
        /\ forall data w1,
             exists buf w2,
               encrypt data (HandleK k) None None w1 = (Ok buf, w2)
               /\ forall w3,
                    fst (AES_decrypt (MsgBuf (buffer_bytes buf))
                           (HandleK k) None w3)
                      = Ok data).
Proof.
  intros Hcheck Huse Hrandom Hsym Hraw.
  assert (Hrun : AES_import key w
                 = (subtle_importKey raw AES_GCM SymmKeyLength_B256,
                    logged (CallImportKey raw AES_GCM SymmKeyLength_B256) w)).
  { unfold AES_import, importAesKey, bind, lift, call, length_or_default.
    destruct key as [s|b]; cbn in Hraw |- *.
    - rewrite Hraw.
      destruct (subtle_importKey raw AES_GCM SymmKeyLength_B256);
        reflexivity.
    - subst raw.
      destruct (subtle_importKey b AES_GCM SymmKeyLength_B256);
        reflexivity. }
  split; [exact Hrun|]. rewrite Hrun. cbn [fst].
  pose proof (Hcheck raw AES_GCM SymmKeyLength_B256) as Hlen.
  split.
  - intros Hno. now rewrite Hno in Hlen.
  - intros Hyes. rewrite Hyes in Hlen.
    destruct (subtle_importKey raw AES_GCM SymmKeyLength_B256) as [k|e]
      eqn:Hk; [|discriminate].
    destruct (Huse raw k Hk) as [Hexp Henc].
    exists k. split; [reflexivity|]. split; [exact Hexp|].
    now apply handle_serves.
Qed.

End Importing.

Lemma reference_imported_key_usable :
  @imported_key_usable Reference.provider.
Proof.
  intros raw k.
  change (Reference.importRaw raw AES_GCM SymmKeyLength_B256 = Ok k ->
          Reference.exportKey k = Ok raw
          /\ forall iv data, List.length iv = IV_LENGTH ->
               is_ok (Reference.seal AES_GCM iv k data) = true).
  unfold Reference.importRaw.
  destruct (accepted_length (List.length raw)); [|discriminate].
  intros H. injection H as <-. split; [reflexivity|].
  intros iv data _. reflexivity.
Qed.

(** ** Runs on the executable provider *)

Section MoreRuns.

Import Reference ReferenceKeys.

Lemma verify_true_only_if_accepted_witness :
  fst (verify hello signature_hello "key:s:01020304" world0) = Ok true
  /\ exists dk key,
       didToPublicKey "key:s:01020304" = Ok dk
       /\ importPublicKey (publicKey dk) SHA_256 Sign = Ok key
       /\ rsaOperations_verify hello signature_hello key
          = Promised (Ok true).
Proof.
  assert (H : fst (verify hello signature_hello "key:s:01020304" world0)
              = Ok true).
  { vm_compute. reflexivity. }
  split; [exact H|].
  exact (@verify_true_only_if_accepted provider hello signature_hello
           "key:s:01020304" world0 H).
Defined.

Lemma encrypt_decrypt_roundtrip_witness :
  encrypt (string_bytes "hello") (HandleK key256) None None world1
    = (Ok encrypted_hello, world_after_encrypt)
  /\ forall w'',
       fst (AES_decrypt (MsgBuf (buffer_bytes encrypted_hello))
              (HandleK key256) None w'')
         = Ok (string_bytes "hello").
Proof.
  assert (Hrun : encrypt (string_bytes "hello") (HandleK key256) None None
                   world1
                 = (Ok encrypted_hello, world_after_encrypt)).
  { reflexivity. }
  split; [exact Hrun|].
  exact (@encrypt_decrypt_roundtrip provider (string_bytes "hello")
           (HandleK key256) None world1 encrypted_hello
           world_after_encrypt reference_random_length
           reference_symmetric_correct Hrun).
Defined.

Lemma encrypt_given_iv_roundtrip_witness :
  encrypt (string_bytes "hello") (HandleK key128) None (Some nonce12)
    world0
  = (Ok (AsUint8Array cipher_hello),
     logged (CallEncrypt AES_GCM nonce12 key128 (string_bytes "hello"))
       world0)
  /\ (exists k w1,
        resolved (HandleK key128) world0 = (Ok k, w1)
        /\ subtle_encrypt AES_GCM nonce12 k (string_bytes "hello")
           = Ok cipher_hello)
  /\ forall w'',
       fst (AES_decrypt (MsgBuf cipher_hello) (HandleK key128)
              (Some nonce12) w'')
         = Ok (string_bytes "hello")
       /\ (List.length nonce12 = IV_LENGTH ->
           fst (AES_decrypt (MsgBuf (nonce12 ++ cipher_hello))
                  (HandleK key128) None w'')
             = Ok (string_bytes "hello")).
Proof.
  assert (Hrun : encrypt (string_bytes "hello") (HandleK key128) None
                   (Some nonce12) world0
                 = (Ok (AsUint8Array cipher_hello),
                    logged (CallEncrypt AES_GCM nonce12 key128
                              (string_bytes "hello")) world0)).
  { reflexivity. }
  split; [exact Hrun|].
  exact (@encrypt_given_iv_roundtrip provider (string_bytes "hello")
           (HandleK key128) None nonce12 world0
           (AsUint8Array cipher_hello)
           (logged (CallEncrypt AES_GCM nonce12 key128
                      (string_bytes "hello")) world0)
           reference_symmetric_correct Hrun).
Defined.

Lemma AES_decrypt_short_input_witness :
  List.length (@nil byte) <= IV_LENGTH
  /\ AES_decrypt (MsgBuf []) (HandleK key128) None world0
     = (subtle_decrypt AES_GCM [] key128 [],
        logged (CallDecrypt AES_GCM [] key128 []) world0).
Proof.
  assert (H : List.length (@nil byte) <= IV_LENGTH).
  { apply Nat.leb_le. reflexivity. }
  split; [exact H|].
  exact (@AES_decrypt_short_input provider [] key128 world0 H).
Defined.

Lemma encryptTo_supplied_key_reads_witness :
  KeyBytes raw32 <> KeyStr (K:=Key) ""
  /\ encryptTo hello recipient (Some (KeyBytes raw32)) world0
     = (Ok sealed_with_raw, world_after_sealed_with_raw)
  /\ exists k,
       handle_of (KeyBytes raw32) k
       /\ forall w'',
            fst (AES_decrypt
                   (MsgBuf (skipn (modulusBytes recipient) sealed_with_raw))
                   (HandleK k) None w'')
              = Ok (content_bytes hello).
Proof.
  assert (Hkey : KeyBytes raw32 <> KeyStr (K:=Key) "") by discriminate.
  assert (Hrun : encryptTo hello recipient (Some (KeyBytes raw32)) world0
                 = (Ok sealed_with_raw, world_after_sealed_with_raw)).
  { reflexivity. }
  split; [exact Hkey|]. split; [exact Hrun|].
  exact (@encryptTo_supplied_key_reads provider hello recipient
           (KeyBytes raw32) world0 sealed_with_raw
           world_after_sealed_with_raw reference_random_length
           reference_wrap_length reference_symmetric_correct Hkey Hrun).
Defined.

Lemma encryptTo_wraps_witness :
  KeyBytes raw32 <> KeyStr (K:=Key) ""
  /\ encryptTo hello recipient (Some (KeyBytes raw32)) world0
     = (Ok sealed_with_raw, world_after_sealed_with_raw)
  /\ exists m before,
       wrapped_message (KeyBytes raw32) m
       /\ calls world_after_sealed_with_raw
          = before ++ [CallRsaEncrypt m recipient].
Proof.
  assert (Hkey : KeyBytes raw32 <> KeyStr (K:=Key) "") by discriminate.
  assert (Hrun : encryptTo hello recipient (Some (KeyBytes raw32)) world0
                 = (Ok sealed_with_raw, world_after_sealed_with_raw)).
  { reflexivity. }
  split; [exact Hkey|]. split; [exact Hrun|].
  exact (@encryptTo_wraps provider hello recipient (KeyBytes raw32) world0
           sealed_with_raw world_after_sealed_with_raw Hkey Hrun).
Defined.

Lemma unexportable_key_rejected_witness :
  subtle_exportKey publicKeyOnly = Err UnsupportedKeyKind
  /\ (forall format,
        encryptKeyTo (KeyHandle publicKeyOnly) recipient format world0
          = (Err UnsupportedKeyKind,
             logged (CallExportKey publicKeyOnly) world0))
  /\ forall content,
       is_ok (fst (encryptTo content recipient
                     (Some (KeyHandle publicKeyOnly)) world0)) = false.
Proof.
  assert (H : subtle_exportKey publicKeyOnly = Err UnsupportedKeyKind)
    by reflexivity.
  split; [exact H|].
  exact (@unexportable_key_rejected provider publicKeyOnly recipient
           UnsupportedKeyKind world0 H).
Defined.


Lemma AES_import_checks_length_witness :
  import_material (MsgStr "AAAA") raw3
  /\ accepted_length (List.length raw3) = false
  /\ fst (AES_import (MsgStr "AAAA") world0) = Err InvalidKeyLength
  /\ import_material (MsgBuf raw32) raw32
  /\ accepted_length (List.length raw32) = true
  /\ exists k,
       fst (AES_import (MsgBuf raw32) world0) = Ok k
       /\ subtle_exportKey k = Ok raw32
       /\ forall data w1,
            exists buf w2,
              encrypt data (HandleK k) None None w1 = (Ok buf, w2)
              /\ forall w3,
                   fst (AES_decrypt (MsgBuf (buffer_bytes buf))
                          (HandleK k) None w3)
                     = Ok data.
Proof.
  assert (H1 : import_material (MsgStr "AAAA") raw3).
  { vm_compute. reflexivity. }
  assert (H2 : accepted_length (List.length raw3) = false) by reflexivity.
  assert (H3 : import_material (MsgBuf raw32) raw32) by reflexivity.
  assert (H4 : accepted_length (List.length raw32) = true) by reflexivity.
  split; [exact H1|]. split; [exact H2|]. split.
  { exact (proj1 (proj2
             (@AES_import_checks_length provider (MsgStr "AAAA") raw3
                world0 reference_import_checks_length
                reference_imported_key_usable reference_random_length
                reference_symmetric_correct H1)) H2). }
  split; [exact H3|]. split; [exact H4|].
  exact (proj2 (proj2
           (@AES_import_checks_length provider (MsgBuf raw32) raw32
              world0 reference_import_checks_length
              reference_imported_key_usable reference_random_length
              reference_symmetric_correct H3)) H4).
Defined.

Lemma AES_decrypt_iv_forms_witness :
  resolved (HandleK key128) world0 = (Ok key128, world0)
  /\ bytes_given (MsgBuf cipher_hello) cipher_hello
  /\ bytes_prefixed (MsgBuf (nonce12 ++ cipher_hello))
       (nonce12 ++ cipher_hello)
  /\ List.length nonce12 = 12
  /\ AES_decrypt (MsgBuf cipher_hello) (HandleK key128) (Some nonce12)
       world0
     = (subtle_decrypt AES_GCM nonce12 key128 cipher_hello,
        logged (CallDecrypt AES_GCM nonce12 key128 cipher_hello) world0)
  /\ (AES_decrypt (MsgBuf (nonce12 ++ cipher_hello)) (HandleK key128) None
        world0
      = AES_decrypt (MsgBuf cipher_hello) (HandleK key128) (Some nonce12)
          world0
      <-> nonce12 ++ cipher_hello = nonce12 ++ cipher_hello).
Proof.
  assert (Hk : resolved (HandleK key128) world0 = (Ok key128, world0))
    by reflexivity.
  assert (Hc : bytes_given (MsgBuf cipher_hello) cipher_hello)
    by reflexivity.
  assert (Hx : bytes_prefixed (MsgBuf (nonce12 ++ cipher_hello))
                 (nonce12 ++ cipher_hello)) by reflexivity.
  assert (Hiv : List.length nonce12 = 12) by reflexivity.
  split; [exact Hk|]. split; [exact Hc|]. split; [exact Hx|].
  split; [exact Hiv|].
  destruct (@AES_decrypt_iv_forms provider
              (MsgBuf cipher_hello) (MsgBuf (nonce12 ++ cipher_hello))
              (HandleK key128) nonce12 cipher_hello
              (nonce12 ++ cipher_hello) key128 world0 world0 Hk Hc Hx)
    as (Hgiven & _ & Hiff).
  split; [exact Hgiven | exact (Hiff Hiv)].
Defined.

(** With an iv of 16 bytes the input of the second form is the iv
    followed by the ciphertext, and the two forms differ: the first
    returns the data, the second reads 12 bytes of the iv as the iv,
    the rest of the iv as ciphertext, and does not return the data.  And
    with an iv of 12 bytes the two forms return the same, a failure, on
    inputs of which the second is not the iv followed by the first. *)
Lemma AES_decrypt_iv_forms_counterexample :
  fst (AES_decrypt (MsgBuf cipher16) (HandleK key128) (Some nonce16) world0)
    = Ok (string_bytes "hello")
  /\ fst (AES_decrypt (MsgBuf (nonce16 ++ cipher16)) (HandleK key128) None
            world0)
     <> Ok (string_bytes "hello")
  /\ ~ (AES_decrypt (MsgBuf (nonce16 ++ cipher16)) (HandleK key128) None
          world0
        = AES_decrypt (MsgBuf cipher16) (HandleK key128) (Some nonce16)
            world0
        <-> nonce16 ++ cipher16 = nonce16 ++ cipher16)
  /\ fst (AES_decrypt (MsgBuf (nonce12 ++ [x01])) (HandleK key128) None
            world0)
     = fst (AES_decrypt (MsgBuf [x00]) (HandleK key128) (Some nonce12)
              world0)
  /\ nonce12 ++ [x01] <> nonce12 ++ [x00].
Proof.
  split; [vm_compute; reflexivity|].
  split; [vm_compute; discriminate|].
  split.
  { intros [_ H]. specialize (H eq_refl).
    apply (f_equal fst) in H. vm_compute in H. discriminate H. }
  split; [vm_compute; reflexivity|].
  intros H. apply app_inv_head in H. discriminate H.
Qed.

End MoreRuns.
